(** * edx-platform: the randomize module and the neo4j dump command

    A shallow embedding of
    - [common/lib/xmodule/xmodule/randomize_module.py] (module [Randomize]),
    - [lms/djangoapps/courseware/management/commands/dump_to_neo4j.py]
      (module [Neo4j]),
    and the properties of these two programs.

    Python objects that the code mutates become explicit states that each
    method takes and returns; a method that can raise returns a [result]. *)

From stdpp Require Import gmap strings list fin_maps pretty.
From Stdlib Require Import Ascii ZArith Lia.

Local Open Scope string_scope.
Local Open Scope list_scope.
#[local] Set Warnings "-clear-no-such-hyp".

(** * Python values shared by both programs *)

(** The exceptions that the two programs can meet. *)
Inductive exn : Type :=
  | IndexError
  | ValueError
  | KeyError
  | TypeError
  | AttributeError
  | UnicodeDecodeError
  | Exception (msg : string).

(** The outcome of a call: a returned value or a raised exception. *)
Inductive result (A : Type) : Type :=
  | Return (a : A)
  | Raise (e : exn).
Arguments Return {A} a.
Arguments Raise {A} e.

Definition returns {A} (r : result A) : bool :=
  match r with Return _ => true | Raise _ => false end.

(** [seq[i]] for a Python list and an integer index: a negative index counts
    from the end, and an index outside [-len, len) raises [IndexError]. *)
Definition py_index {A} (l : list A) (i : Z) : result A :=
  let n := Z.of_nat (length l) in
  if (0 <=? i)%Z then
    match l !! Z.to_nat i with Some x => Return x | None => Raise IndexError end
  else if (0 <=? n + i)%Z then
    match l !! Z.to_nat (n + i) with Some x => Return x | None => Raise IndexError end
  else Raise IndexError.

(** [seq.index(x)]: the first position of [x], [ValueError] when absent. *)
Fixpoint list_index `{EqDecision A} (x : A) (l : list A) : option nat :=
  match l with
  | [] => None
  | y :: l' => if decide (x = y) then Some 0 else S <$> list_index x l'
  end.

(** [x in seq] as a boolean. *)
Definition py_in `{EqDecision A} (x : A) (l : list A) : bool :=
  bool_decide (x ∈ l).

(** ** [collections.OrderedDict] with string keys

    An association list without repeated keys, in order of first
    insertion; assigning to an existing key keeps its position. *)
Module OrderedDict.

Definition t (V : Type) : Type := list (string * V).

Fixpoint setitem {V} (k : string) (v : V) (d : t V) : t V :=
  match d with
  | [] => [(k, v)]
  | (k', v') :: d' =>
      if decide (k = k') then (k', v) :: d' else (k', v') :: setitem k v d'
  end.

(** [d.update(pairs)]: the pairs are assigned one after the other. *)
Definition update {V} (d : t V) (l : list (string * V)) : t V :=
  fold_left (fun d kv => setitem kv.1 kv.2 d) l d.

(** [OrderedDict(pairs)] updates an empty dictionary. *)
Definition of_pairs {V} (l : list (string * V)) : t V := update [] l.

Fixpoint get {V} (d : t V) (k : string) : option V :=
  match d with
  | [] => None
  | (k', v) :: d' => if decide (k = k') then Some v else get d' k
  end.

Definition keys {V} (d : t V) : list string := d.*1.
Definition values {V} (d : t V) : list V := d.*2.
Definition len {V} (d : t V) : nat := length d.

(** [k in d] *)
Definition contains {V} (k : string) (d : t V) : bool := py_in k (keys d).

End OrderedDict.

(** * The randomize module *)
Module Randomize.

(** A location, as far as the module looks at it: the text [url()]
    returns and the [name] attribute. *)
Record Location : Type := { url : string; name : string }.

(** A child descriptor of the randomize block. *)
Record Descriptor : Type := {
  location : Location;
  display_name : string
}.

(** A child module, as the runtime hands it out for a descriptor:
    [render] is the content of the fragment its student view gives. *)
Record Module : Type := {
  module_location : Location;
  render : string;
  icon_class : string
}.

Global Instance Location_eq_dec : EqDecision Location.
Proof. solve_decision. Defined.
Global Instance Descriptor_eq_dec : EqDecision Descriptor.
Proof. solve_decision. Defined.

(** [self.system] (also reached as [self.runtime]). [get_module] is the
    runtime's lookup of the module of a descriptor, [None] when the user
    has no access to it; [render_template] stands for the rendering of
    [randomize_control.html] with the index of the choice and the number
    of choices. *)
Record System : Type := {
  seed : option Z;
  user_is_staff : bool;
  get_module : Descriptor -> option Module;
  render_template : nat -> nat -> string
}.

(** A [RandomizeModule] instance: the three fields of [RandomizeFields],
    the attributes [__init__] and [pick_choice] set, the children of its
    descriptor, and the cache [_loaded_children] of [XModule]. *)
Record RandomizeModule : Type := {
  choice : option string;
  history : list string;
  suspended : list string;
  use_randrange : bool;
  no_repeats : bool;
  children : list Descriptor;
  child_descriptor : option Descriptor;
  child : option Module;
  _loaded_children : option (list Module);
  system : System
}.

Definition set_choice (c : option string) (self : RandomizeModule) :=
  {| choice := c; history := history self; suspended := suspended self;
     use_randrange := use_randrange self; no_repeats := no_repeats self;
     children := children self; child_descriptor := child_descriptor self;
     child := child self; _loaded_children := _loaded_children self;
     system := system self |}.

Definition set_history (h : list string) (self : RandomizeModule) :=
  {| choice := choice self; history := h; suspended := suspended self;
     use_randrange := use_randrange self; no_repeats := no_repeats self;
     children := children self; child_descriptor := child_descriptor self;
     child := child self; _loaded_children := _loaded_children self;
     system := system self |}.

Definition set_child_descriptor (d : option Descriptor) (self : RandomizeModule) :=
  {| choice := choice self; history := history self;
     suspended := suspended self;
     use_randrange := use_randrange self; no_repeats := no_repeats self;
     children := children self; child_descriptor := d;
     child := child self; _loaded_children := _loaded_children self;
     system := system self |}.

Definition set_child (m : option Module) (self : RandomizeModule) :=
  {| choice := choice self; history := history self;
     suspended := suspended self;
     use_randrange := use_randrange self; no_repeats := no_repeats self;
     children := children self; child_descriptor := child_descriptor self;
     child := m; _loaded_children := _loaded_children self;
     system := system self |}.

Definition set_loaded_children (l : option (list Module)) (self : RandomizeModule) :=
  {| choice := choice self; history := history self;
     suspended := suspended self;
     use_randrange := use_randrange self; no_repeats := no_repeats self;
     children := children self; child_descriptor := child_descriptor self;
     child := child self; _loaded_children := l;
     system := system self |}.

(** Truth value of an optional list argument: [None] and [[]] are false. *)
Definition truthy {A} (o : option (list A)) : bool :=
  match o with Some (_ :: _) => true | _ => false end.

(** The list behind an optional list argument that tested true. *)
Definition the_list {A} (o : option (list A)) : list A := default [] o.

(** [get_choices]: [no_repeats] is used for its truth value only, so the
    default [None] is [false]; [suspended] defaults to [None]. *)
Definition get_choices (self : RandomizeModule) (no_repeats : bool)
    (suspended : option (list string)) : OrderedDict.t Descriptor :=
  let children := children self in
  let children :=
    if bool_decide (choice self = None) && no_repeats
    then List.filter (fun c => negb (py_in (url (location c)) (history self)))
                     children
    else children in
  let children :=
    if truthy suspended
    then List.filter (fun c => negb (py_in (name (location c))
                                            (the_list suspended)))
                     children
    else children in
  OrderedDict.of_pairs (map (fun c => (url (location c), c)) children).

(** [d.get(key)] where the key may be [None], which is never a key. *)
Definition get_opt {V} (d : OrderedDict.t V) (k : option string) : option V :=
  k ≫= OrderedDict.get d.

(** [key in d] where the key may be [None]. *)
Definition contains_opt {V} (k : option string) (d : OrderedDict.t V) : bool :=
  match k with Some k => OrderedDict.contains k d | None => false end.

(** [get_choice_index]: [choice or self.choice] takes [self.choice] when
    the argument is [None] or the empty string, [choices or ...] takes
    the keys of [get_choices()] when the argument is [None] or empty. *)
Definition get_choice_index (self : RandomizeModule) (choice_arg : option string)
    (choices_arg : option (list string)) : result nat :=
  let c := match choice_arg with
           | Some s => if bool_decide (s = "") then choice self else Some s
           | None => choice self
           end in
  let choices := if truthy choices_arg then the_list choices_arg
                 else OrderedDict.keys (get_choices self false None) in
  match c ≫= (fun c => list_index c choices) with
  | Some i => Return i
  | None => Raise ValueError
  end.

Definition get_child_descriptors (self : RandomizeModule) : list Descriptor :=
  match child_descriptor self with
  | None => []
  | Some d => [d]
  end.

(** [XModule.get_children], which the randomize module inherits from
    [x_module.py]: the modules of the child descriptors that the user may
    see, computed on the first call and kept in [_loaded_children]. It
    goes through [get_child_descriptors], as the notes in [__init__] and
    [pick_choice] say. *)
Definition get_children (self : RandomizeModule) : RandomizeModule * list Module :=
  match _loaded_children self with
  | Some l => (self, l)
  | None =>
      let l := omap (get_module (system self)) (get_child_descriptors self) in
      (set_loaded_children (Some l) self, l)
  end.

(** [random.choice(keys)] for the number [rnd] that the generator draws:
    always an element of a non-empty list. *)
Definition random_choice (rnd : nat) (keys : list string) : string :=
  default "" (keys !! (rnd mod length keys)).

(** First step of [pick_choice]: the stored choice is dropped when its
    child is among all children, is not among the filtered ones and is
    not suspended. [suspended] is the argument as passed. *)
Definition pick_choice_reset (suspended : option (list string))
    (choices all_choices : OrderedDict.t Descriptor)
    (self : RandomizeModule) : result RandomizeModule :=
  match get_opt all_choices (choice self) with
  | Some current_child =>
      if negb (contains_opt (choice self) choices) then
        match suspended with
        | None => Raise TypeError
        | Some sus =>
            if negb (py_in (name (location current_child)) sus)
            then Return (set_choice None self)
            else Return self
        end
      else Return self
  | None => Return self
  end.

(** Second step: a choice is picked when none is stored. The seed can be
    any integer; [%] gives a remainder in [0, num_choices). *)
Definition pick_choice_select (use_randrange : bool) (rnd : nat)
    (choices : OrderedDict.t Descriptor)
    (self : RandomizeModule) : result RandomizeModule :=
  match choice self with
  | Some _ => Return self
  | None =>
      let num_choices := OrderedDict.len choices in
      if bool_decide (0 < num_choices) then
        let keys := OrderedDict.keys choices in
        match seed (system self), use_randrange with
        | Some s, false =>
            match py_index keys (s mod Z.of_nat num_choices) with
            | Return c => Return (set_choice (Some c) self)
            | Raise e => Raise e
            end
        | _, _ => Return (set_choice (Some (random_choice rnd keys)) self)
        end
      else
        match last (history self) with
        | Some h => Return (set_choice (Some h) self)
        | None => Return self
        end
  end.

(** Third step: the descriptor and the module of the choice. *)
Definition pick_choice_load (all_choices : OrderedDict.t Descriptor)
    (self : RandomizeModule) : RandomizeModule * result unit :=
  match choice self with
  | Some c =>
      let self := set_child_descriptor (OrderedDict.get all_choices c) self in
      let '(self, children) := get_children self in
      match children with
      | [m] => (set_child (Some m) self, Return tt)
      | _ => (self, Raise (Exception "self.get_children() returned elements"))
      end
  | None => (set_child None (set_child_descriptor None self), Return tt)
  end.

(** [pick_choice]; [rnd] is what the random generator would draw. The
    state is returned also when the call raises, since the attributes
    set before the exception stay set. *)
Definition pick_choice (use_randrange no_repeats : bool)
    (suspended : option (list string)) (rnd : nat)
    (self : RandomizeModule) : RandomizeModule * result unit :=
  let choices := get_choices self no_repeats suspended in
  let all_choices := get_choices self false None in
  match pick_choice_reset suspended choices all_choices self with
  | Raise e => (self, Raise e)
  | Return self1 =>
      match pick_choice_select use_randrange rnd choices self1 with
      | Raise e => (self1, Raise e)
      | Return self2 => pick_choice_load all_choices self2
      end
  end.

(** [v.lower()] on ASCII text. *)
Definition lower_ascii (a : ascii) : ascii :=
  let n := nat_of_ascii a in
  if bool_decide (65 <= n <= 90) then ascii_of_nat (n + 32) else a.

Fixpoint lower (s : string) : string :=
  match s with
  | EmptyString => EmptyString
  | String a s' => String (lower_ascii a) (lower s')
  end.

Definition _str_to_bool (v : string) : bool := bool_decide (lower v = "true").

(** [__init__]: the stored fields, the children and the runtime come from
    the platform; [xml_attributes] is the dictionary of the descriptor.
    With an empty dictionary, [xml_attributes or []] is a list, which has
    no [get]. *)
Definition __init__ (stored_choice : option string)
    (stored_history stored_suspended : list string)
    (xml_attributes : gmap string string)
    (descriptor_children : list Descriptor) (sys : System) (rnd : nat)
    : option RandomizeModule * result unit :=
  if bool_decide (xml_attributes = ∅) then (None, Raise AttributeError)
  else
    let rr := _str_to_bool (default "" (xml_attributes !! "use_randrange")) in
    let nr := _str_to_bool (default "" (xml_attributes !! "no_repeats")) in
    let self :=
      {| choice := stored_choice; history := stored_history;
         suspended := stored_suspended;
         use_randrange := rr; no_repeats := nr;
         children := descriptor_children;
         child_descriptor := None; child := None;
         _loaded_children := None; system := sys |} in
    let '(self, r) := pick_choice rr nr (Some (suspended self)) rnd self in
    (Some self, r).

(** [xblock.fragment.Fragment], reduced to its content. *)
Record Fragment : Type := { content : string }.

(** [student_view]; the instance that is returned is the one that
    [self.save()] has stored. *)
Definition student_view (self : RandomizeModule)
    : RandomizeModule * result Fragment :=
  match child self with
  | None =>
      (self, Return {| content := "<div>Nothing to randomize between</div>" |})
  | Some ch =>
      let child_loc := url (module_location ch) in
      let self :=
        if negb (py_in child_loc (history self))
        then set_history (history self ++ [child_loc]) self
        else self in
      let child_html := {| content := render ch |} in
      if user_is_staff (system self) then
        let choices := OrderedDict.keys (get_choices self false None) in
        match get_choice_index self None (Some choices) with
        | Raise e => (self, Raise e)
        | Return index =>
            let dishtml :=
              render_template (system self) index (length choices) in
            (self, Return {| content := "<html>" +:+ dishtml +:+
                                        content child_html +:+ "</html>" |})
        end
      else (self, Return child_html)
  end.

(** Python's [int(text)] on ASCII text: surrounding white space is
    dropped, then an optional sign and at least one decimal digit must
    remain; anything else is a [ValueError], here [None]. *)
Definition is_space (a : ascii) : bool :=
  let n := nat_of_ascii a in
  bool_decide (n = 32) || bool_decide (9 <= n <= 13).

Fixpoint lstrip (s : string) : string :=
  match s with
  | String a s' => if is_space a then lstrip s' else s
  | EmptyString => EmptyString
  end.

Definition strip (s : string) : string :=
  String.rev (lstrip (String.rev (lstrip s))).

Definition digit_value (a : ascii) : option Z :=
  let n := nat_of_ascii a in
  if bool_decide (48 <= n <= 57) then Some (Z.of_nat (n - 48)) else None.

Fixpoint digits_value (acc : Z) (s : string) : option Z :=
  match s with
  | EmptyString => Some acc
  | String a s' =>
      match digit_value a with
      | Some d => digits_value (10 * acc + d) s'
      | None => None
      end
  end.

Definition unsigned_value (s : string) : option Z :=
  match s with
  | EmptyString => None
  | _ => digits_value 0 s
  end.

Definition py_int (s : string) : option Z :=
  match strip s with
  | String "+" s' => unsigned_value s'
  | String "-" s' => Z.opp <$> unsigned_value s'
  | s' => unsigned_value s'
  end.

(** ["%s" % self.choice] *)
Definition str_of_choice (c : option string) : string :=
  match c with Some s => s | None => "None" end.

(** The text [json.dumps] makes of a dictionary from strings to strings,
    kept as that dictionary. *)
Inductive json : Type := json_dumps (obj : list (string * string)).

Definition ajax_result (self : RandomizeModule) : json :=
  json_dumps [("ret", "choice=" +:+ str_of_choice (choice self))].

(** The [try] block of [handle_ajax]. *)
Definition handle_ajax_try (dispatch : string) (data : gmap string string)
    (choices : list string) (index : nat)
    (self : RandomizeModule) : result RandomizeModule :=
  if bool_decide (dispatch = "next") then
    match py_index choices (Z.of_nat index + 1) with
    | Return c => Return (set_choice (Some c) self)
    | Raise e => Raise e
    end
  else if bool_decide (dispatch = "jump") then
    match data !! "choice" with
    | None => Raise KeyError
    | Some text =>
        match py_int text with
        | None => Raise ValueError
        | Some i =>
            match py_index choices i with
            | Return c => Return (set_choice (Some c) self)
            | Raise e => Raise e
            end
        end
    end
  else Return self.

Definition handle_ajax (dispatch : string) (data : gmap string string)
    (self : RandomizeModule) : RandomizeModule * result json :=
  if user_is_staff (system self) then
    let choices := OrderedDict.keys (get_choices self false None) in
    match get_choice_index self None (Some choices) with
    | Raise e => (self, Raise e)
    | Return index =>
        match handle_ajax_try dispatch data choices index self with
        | Return self' => (self', Return (ajax_result self'))
        | Raise IndexError | Raise ValueError =>
            (self, Return (ajax_result self))
        | Raise e => (self, Raise e)
        end
    end
  else (self, Return (ajax_result self)).

Definition get_icon_class (self : RandomizeModule) : string :=
  match child self with
  | Some ch => icon_class ch
  | None => "other"
  end.

(** ** Notions for the statements about the module *)

(** The pair that [get_choices] makes of a child. *)
Definition entry (c : Descriptor) : string * Descriptor := (url (location c), c).

(** Whether [get_choices] keeps a child: with no stored choice and
    [no_repeats], its url is not in the history; with a non-empty
    [suspended], its name is not in that list. *)
Definition offered (self : RandomizeModule) (no_repeats : bool)
    (suspended : option (list string)) (c : Descriptor) : bool :=
  (if bool_decide (choice self = None) && no_repeats
   then negb (py_in (url (location c)) (history self)) else true)
  && (if truthy suspended
      then negb (py_in (name (location c)) (the_list suspended)) else true).

(** The methods of the module that take the instance and may change it. *)
Inductive method : Type :=
  | PickChoice (use_randrange no_repeats : bool)
               (suspended : option (list string)) (rnd : nat)
  | GetChildren
  | StudentView
  | HandleAjax (dispatch : string) (data : gmap string string).

(** The instance after a call, whether the call returned or raised. *)
Definition call (m : method) (self : RandomizeModule) : RandomizeModule :=
  match m with
  | PickChoice use_randrange no_repeats suspended rnd =>
      (pick_choice use_randrange no_repeats suspended rnd self).1
  | GetChildren => (get_children self).1
  | StudentView => (student_view self).1
  | HandleAjax dispatch data => (handle_ajax dispatch data self).1
  end.

Definition run (ms : list method) (self : RandomizeModule) : RandomizeModule :=
  fold_left (fun self m => call m self) ms self.

(** ** Example inputs: the three problems of the docstring *)

Definition problem (n : string) : Descriptor :=
  {| location := {| url := "i4x://edX/demo/problem/" +:+ n; name := n |};
     display_name := n |}.

Definition example_system (staff : bool) (s : option Z) : System :=
  {| seed := s; user_is_staff := staff;
     get_module := fun d =>
       Some {| module_location := location d;
               render := "<p>" +:+ display_name d +:+ "</p>";
               icon_class := "problem" |};
     render_template := fun index num_choices => "<div>control</div>" |}.

(** An instance as [__init__] finds it before [pick_choice]. *)
Definition example_module (staff : bool) (s : option Z) (c : option string)
    (h sus : list string) (cs : list Descriptor) : RandomizeModule :=
  {| choice := c; history := h; suspended := sus;
     use_randrange := false; no_repeats := false; children := cs;
     child_descriptor := None; child := None; _loaded_children := None;
     system := example_system staff s |}.

Definition three_problems : list Descriptor :=
  [problem "problem1"; problem "problem2"; problem "problem3"].

(** A randomize block without children, as [__init__] leaves it for a
    staff user. *)
Definition empty_block : RandomizeModule :=
  (pick_choice false false (Some []) 0
     (example_module true (Some 7%Z) None [] [] [])).1.

(** Two instances of one block for one user and runtime: they differ at
    most in the choice, the chosen child and the cache of modules. *)
Definition same_block (self self' : RandomizeModule) : Prop :=
  history self' = history self
  /\ suspended self' = suspended self
  /\ use_randrange self' = use_randrange self
  /\ no_repeats self' = no_repeats self
  /\ children self' = children self
  /\ system self' = system self.

(** The module that the runtime gives for the child of a url, if that url
    is the url of a child and the user may see it. *)
Definition module_of (self : RandomizeModule) (c : string) : option Module :=
  OrderedDict.get (get_choices self false None) c
    ≫= get_module (system self).

End Randomize.

(** * The dump of the modulestore to neo4j *)
Module Neo4j.

(** ** Field values

    [coerce_types] looks at the type of a value and, for the four
    collection types, calls [unicode] on the elements. An [atom] is any
    object that is not one of these collections. The objects whose text
    this file does not compute carry it: a float the text [unicode]
    gives for it, any other object (a dictionary, a date, a key, a
    collection nested in a collection) the outcome of [unicode] on it,
    which is an exception when its conversion raises. *)
Inductive atom : Type :=
  | AInt (z : Z)
  | ABool (b : bool)
  | AFloat (text : string)
  | AStr (bytes : string)
  | AUnicode (s : string)
  | ANone
  | AObject (text : result string).

(** A value whose type is exactly [tuple], [list], [set] or [frozenset]
    is given by its elements in iteration order. *)
Inductive value : Type :=
  | Atom (a : atom)
  | VTuple (l : list atom)
  | VList (l : list atom)
  | VSet (l : list atom)
  | VFrozenset (l : list atom).

Definition is_ascii (s : string) : bool :=
  forallb (fun a => bool_decide (nat_of_ascii a < 128)) (String.list_ascii_of_string s).

(** Python 2's [unicode(x)]: a byte string is decoded as ASCII. *)
Definition unicode (a : atom) : result string :=
  match a with
  | AInt z => Return (pretty z)
  | ABool b => Return (if b then "True" else "False")
  | AFloat text => Return text
  | AStr bytes => if is_ascii bytes then Return bytes else Raise UnicodeDecodeError
  | AUnicode s => Return s
  | ANone => Return "None"
  | AObject text => text
  end.

(** [isinstance(value, PRIMITIVE_NEO4J_TYPES)] *)
Definition is_primitive (a : atom) : bool :=
  match a with
  | AInt _ | ABool _ | AFloat _ | AStr _ | AUnicode _ => true
  | ANone | AObject _ => false
  end.

(** [isinstance(value, ITERABLE_NEO4J_TYPES)], with the elements. *)
Definition iterable_elements (v : value) : option (list atom) :=
  match v with
  | Atom _ => None
  | VTuple l | VList l | VSet l | VFrozenset l => Some l
  end.

(** The loop of [coerce_types] that appends [unicode(element)]. *)
Fixpoint unicode_elements (l : list atom) (coerced_value : list string)
    : result (list string) :=
  match l with
  | [] => Return coerced_value
  | element :: l' =>
      match unicode element with
      | Return u => unicode_elements l' (coerced_value ++ [u])
      | Raise e => Raise e
      end
  end.

(** [type(value)(coerced_value)]: a set keeps one copy of each text; the
    order in which a set lists its elements is not observable. *)
Definition rebuild (v : value) (coerced_value : list string) : value :=
  match v with
  | Atom a => Atom a
  | VTuple _ => VTuple (AUnicode <$> coerced_value)
  | VList _ => VList (AUnicode <$> coerced_value)
  | VSet _ => VSet (AUnicode <$> remove_dups coerced_value)
  | VFrozenset _ => VFrozenset (AUnicode <$> remove_dups coerced_value)
  end.

Definition coerce_types (v : value) : result value :=
  match iterable_elements v with
  | Some elements =>
      match unicode_elements elements [] with
      | Return coerced_value => Return (rebuild v coerced_value)
      | Raise e => Raise e
      end
  | None =>
      match v with
      | Atom a =>
          if negb (is_primitive a) then
            match unicode a with
            | Return u => Return (Atom (AUnicode u))
            | Raise e => Raise e
            end
          else Return v
      | _ => Return v
      end
  end.

(** ** Items of the modulestore *)

(** A course key with the text [unicode] gives for it. *)
Record CourseKey : Type := {
  org : string;
  course : string;
  run : string;
  course_key_text : string
}.

(** An XBlock as [serialize_item] and [serialize_course] read it:
    [fields] maps each field name to the value read from the item,
    [edited_on] is [None] when the item has no such attribute, and
    [get_children] lists the locations of the child blocks. Locations and
    course ids are given by their text. *)
Record Item : Type := {
  location : string;
  block_type : string;
  course_key : CourseKey;
  fields : gmap string value;
  edited_on : option atom;
  display_name_with_default : string;
  get_children : list string
}.

Definition serialize_item (item : Item) : result (gmap string value * string) :=
  let fields := delete "children" (delete "parent" (fields item)) in
  let course_key := course_key item in
  match unicode (default (AUnicode "") (edited_on item)) with
  | Raise e => Raise e
  | Return edited =>
      let fields := <["edited_on" := Atom (AUnicode edited)]> fields in
      let fields :=
        <["display_name" := Atom (AUnicode (display_name_with_default item))]>
          fields in
      let fields := <["org" := Atom (AUnicode (org course_key))]> fields in
      let fields := <["course" := Atom (AUnicode (course course_key))]> fields in
      let fields := <["run" := Atom (AUnicode (run course_key))]> fields in
      let fields :=
        <["course_key" := Atom (AUnicode (course_key_text course_key))]>
          fields in
      let label := block_type item in
      let fields :=
        if bool_decide (label = "course") then delete "checklists" fields
        else fields in
      Return (fields, label)
  end.

(** ** py2neo entities

    A [Node] object is told apart from another one with the same label and
    properties: [node_id] numbers the nodes in the order of creation. *)
Record Node : Type := {
  node_id : nat;
  label : string;
  properties : gmap string value
}.

Record Relationship : Type := {
  start_node : Node;
  rel_type : string;
  end_node : Node
}.

(** The loop of [serialize_course] that assigns the coerced value to each
    field of the dictionary. *)
Definition coerce_fields (fields : gmap string value)
    : result (gmap string value) :=
  map_fold
    (fun field_name value acc =>
       match acc with
       | Raise e => Raise e
       | Return fields =>
           match coerce_types value with
           | Return v => Return (<[field_name := v]> fields)
           | Raise e => Raise e
           end
       end)
    (Return fields) fields.

(** The first loop of [serialize_course], from the state it has reached. *)
Fixpoint create_nodes (items : list Item) (nodes : list Node)
    (location_to_node : gmap string Node)
    : result (list Node * gmap string Node) :=
  match items with
  | [] => Return (nodes, location_to_node)
  | item :: items' =>
      match serialize_item item with
      | Raise e => Raise e
      | Return (fields, label) =>
          match coerce_fields fields with
          | Raise e => Raise e
          | Return fields =>
              let node := {| node_id := length nodes; label := label;
                             properties := fields |} in
              create_nodes items' (nodes ++ [node])
                           (<[location item := node]> location_to_node)
          end
      end
  end.

(** The inner loop of the second loop, for one item. *)
Fixpoint child_relationships (location_to_node : gmap string Node)
    (item : Item) (child_locs : list string)
    (relationships : list Relationship) : list Relationship :=
  match child_locs with
  | [] => relationships
  | child_loc :: child_locs' =>
      let relationships :=
        match location_to_node !! location item, location_to_node !! child_loc with
        | Some parent_node, Some child_node =>
            relationships ++
              [{| start_node := parent_node; rel_type := "PARENT_OF";
                  end_node := child_node |}]
        | _, _ => relationships
        end in
      child_relationships location_to_node item child_locs' relationships
  end.

(** The second loop of [serialize_course]. *)
Fixpoint create_relationships (location_to_node : gmap string Node)
    (items : list Item) (relationships : list Relationship)
    : list Relationship :=
  match items with
  | [] => relationships
  | item :: items' =>
      create_relationships location_to_node items'
        (child_relationships location_to_node item (get_children item)
                             relationships)
  end.

(** The modulestore: the course summaries, by the id of each course, and
    the items of a course. *)
Record ModuleStore : Type := {
  get_course_summaries : list string;
  get_items : string -> list Item
}.

Definition serialize_course (modulestore : ModuleStore) (course_id : string)
    : result (list Node * list Relationship) :=
  let items := get_items modulestore course_id in
  match create_nodes items [] ∅ with
  | Raise e => Raise e
  | Return (nodes, location_to_node) =>
      Return (nodes, create_relationships location_to_node items [])
  end.

(** ** The graph database

    The database holds the entities of the committed transactions. A
    transaction collects the entities created in it; a commit adds them
    to the database at once and a rollback drops them. Whether a call
    of [create] or [commit] raises is for the driver to say. *)
Inductive Entity : Type :=
  | ENode (n : Node)
  | ERelationship (r : Relationship).

Record Driver : Type := {
  create_raises : list Entity -> Entity -> bool;
  commit_raises : list Entity -> list Entity -> bool
}.

(** What the command does to its surroundings, in order. *)
Inductive event : Type :=
  | DeleteAll
  | ClearRequestCache
  | SerializeCourse (course_id : string)
  | Begin
  | Create (e : Entity)
  | Commit
  | Rollback.

(** The state of a run: the content of the database, the entities of the
    open transaction, and the calls made so far. *)
Record Run : Type := {
  graph : list Entity;
  transaction : list Entity;
  trace : list event
}.

Definition emit (ev : event) (r : Run) : Run :=
  {| graph := graph r; transaction := transaction r;
     trace := trace r ++ [ev] |}.

Definition delete_all (r : Run) : Run :=
  emit DeleteAll {| graph := []; transaction := transaction r; trace := trace r |}.

Definition begin (r : Run) : Run :=
  emit Begin {| graph := graph r; transaction := []; trace := trace r |}.

Definition create (drv : Driver) (e : Entity) (r : Run) : Run * result unit :=
  let r := emit (Create e) r in
  if create_raises drv (transaction r) e
  then (r, Raise (Exception "create"))
  else ({| graph := graph r; transaction := transaction r ++ [e];
           trace := trace r |}, Return tt).

Definition commit (drv : Driver) (r : Run) : Run * result unit :=
  let r := emit Commit r in
  if commit_raises drv (graph r) (transaction r)
  then (r, Raise (Exception "commit"))
  else ({| graph := graph r ++ transaction r; transaction := [];
           trace := trace r |}, Return tt).

Definition rollback (r : Run) : Run :=
  emit Rollback {| graph := graph r; transaction := []; trace := trace r |}.

Fixpoint add_to_transaction (drv : Driver) (neo4j_entities : list Entity)
    (r : Run) : Run * result unit :=
  match neo4j_entities with
  | [] => (r, Return tt)
  | entity :: rest =>
      match create drv entity r with
      | (r, Return _) => add_to_transaction drv rest r
      | (r, Raise e) => (r, Raise e)
      end
  end.

(** The [try] block of [handle]. *)
Definition handle_try (drv : Driver) (nodes : list Node)
    (relationships : list Relationship) (r : Run) : Run * result unit :=
  match add_to_transaction drv (ENode <$> nodes) r with
  | (r, Raise e) => (r, Raise e)
  | (r, Return _) =>
      match add_to_transaction drv (ERelationship <$> relationships) r with
      | (r, Raise e) => (r, Raise e)
      | (r, Return _) => commit drv r
      end
  end.

(** One round of the loop of [handle]. *)
Definition handle_course (drv : Driver) (modulestore : ModuleStore)
    (course_id : string) (r : Run) : Run * result unit :=
  let r := emit ClearRequestCache r in
  let r := emit (SerializeCourse course_id) r in
  match serialize_course modulestore course_id with
  | Raise e => (r, Raise e)
  | Return (nodes, relationships) =>
      let r := begin r in
      match handle_try drv nodes relationships r with
      | (r, Return _) => (r, Return tt)
      | (r, Raise _) => (rollback r, Return tt)
      end
  end.

Fixpoint handle_loop (drv : Driver) (modulestore : ModuleStore)
    (all_courses : list string) (r : Run) : Run * result unit :=
  match all_courses with
  | [] => (r, Return tt)
  | course_id :: rest =>
      match handle_course drv modulestore course_id r with
      | (r, Return _) => handle_loop drv modulestore rest r
      | (r, Raise e) => (r, Raise e)
      end
  end.

(** [Command.handle] on a database with the content [existing]. *)
Definition handle (drv : Driver) (modulestore : ModuleStore)
    (existing : list Entity) : Run * result unit :=
  let all_courses := get_course_summaries modulestore in
  let r := {| graph := existing; transaction := []; trace := [] |} in
  let r := delete_all r in
  handle_loop drv modulestore all_courses r.

(** ** Notions for the statements about the dump *)

(** The coerced value, when [coerce_types] returns one. *)
Definition coerced (v : value) : option value :=
  match coerce_types v with Return v' => Some v' | Raise _ => None end.

(** The entities of a course in the order in which [handle] creates them. *)
Definition entities (nodes : list Node) (relationships : list Relationship)
    : list Entity :=
  (ENode <$> nodes) ++ (ERelationship <$> relationships).

(** The relationship of a child of an item, when both have a node. *)
Definition parent_of (node_of : string -> option Node) (item : Item)
    (child_loc : string) : list Relationship :=
  match node_of (location item), node_of child_loc with
  | Some parent_node, Some child_node =>
      [{| start_node := parent_node; rel_type := "PARENT_OF";
          end_node := child_node |}]
  | _, _ => []
  end.

(** A run goes on from another one without a further [DeleteAll]. *)
Definition extends (r r' : Run) : Prop :=
  exists evs, trace r' = trace r ++ evs /\ DeleteAll ∉ evs.

(** The courses that a trace shows as serialized, in order. *)
Definition serialized_courses (evs : list event) : list string :=
  evs ≫= fun ev => match ev with SerializeCourse c => [c] | _ => [] end.

(** The node that [location_to_node] holds for a location after the first
    loop: the node of the last item with that location. *)
Fixpoint node_for (items : list Item) (nodes : list Node) (loc : string)
    : option Node :=
  match items, nodes with
  | item :: items', node :: nodes' =>
      match node_for items' nodes' loc with
      | Some n => Some n
      | None => if decide (location item = loc) then Some node else None
      end
  | _, _ => None
  end.

(** The node of an item: its label is the block type and its properties
    are the coerced values of the fields that [serialize_item] gives. *)
Definition node_of_item (item : Item) (node : Node) : Prop :=
  label node = block_type item
  /\ exists fields,
       serialize_item item = Return (fields, block_type item)
       /\ forall k, properties node !! k = fields !! k ≫= coerced.

(** Whether an item can be serialized: [serialize_item] returns and
    [coerce_types] returns for each of the values. *)
Definition serializable (item : Item) : bool :=
  match serialize_item item with
  | Return (fields, _) =>
      bool_decide (map_Forall (fun _ v => returns (coerce_types v) = true) fields)
  | Raise _ => false
  end.

(** ** Example inputs *)

Definition example_key : CourseKey :=
  {| org := "edX"; course := "demo"; run := "2016";
     course_key_text := "edX/demo/2016" |}.

Definition example_item (loc type : string) (fs : gmap string value)
    (cs : list string) : Item :=
  {| location := loc; block_type := type; course_key := example_key;
     fields := fs; edited_on := None; display_name_with_default := loc;
     get_children := cs |}.

(** A course with a chapter and a problem; the chapter also lists a child
    that the modulestore does not return. *)
Definition example_course : list Item :=
  [example_item "course" "course"
     {[ "checklists" := VList []; "children" := VList [AUnicode "chapter"];
        "advanced_modules" := VList [AUnicode "randomize"] ]}
     ["chapter"];
   example_item "chapter" "chapter" {[ "start" := Atom ANone ]}
     ["problem"; "missing"];
   example_item "problem" "problem"
     {[ "weight" := Atom (AInt 2); "tags" := VTuple [AInt 1; ABool true] ]}
     []].

(** An item with a list that holds a byte string outside ASCII. *)
Definition latin_item : Item :=
  example_item "html" "html" {[ "tags" := VList [AStr "é"] ]} [].

Definition example_store : ModuleStore :=
  {| get_course_summaries := ["demo"; "latin"; "demo2"];
     get_items := fun course_id =>
       if bool_decide (course_id = "latin") then [latin_item]
       else example_course |}.

(** A store whose courses can all be serialized. *)
Definition plain_store : ModuleStore :=
  {| get_course_summaries := ["demo"; "demo2"];
     get_items := fun _ => example_course |}.

(** A driver that refuses relationships, one that fails every commit and
    one that never fails. *)
Definition no_relationships : Driver :=
  {| create_raises := fun _ e =>
       match e with ERelationship _ => true | ENode _ => false end;
     commit_raises := fun _ _ => false |}.

Definition no_commit : Driver :=
  {| create_raises := fun _ _ => false; commit_raises := fun _ _ => true |}.

Definition sound_driver : Driver :=
  {| create_raises := fun _ _ => false; commit_raises := fun _ _ => false |}.

(** What neo4j takes as the value of a property: a primitive value, or a
    collection of unicode texts. *)
Definition is_unicode (a : atom) : bool :=
  match a with AUnicode _ => true | _ => false end.

Definition neo4j_accepts (v : value) : bool :=
  match v with
  | Atom a => is_primitive a
  | VTuple l | VList l | VSet l | VFrozenset l => forallb is_unicode l
  end.

(** The entities of a course, none when it cannot be serialized. *)
Definition course_entities (modulestore : ModuleStore) (course_id : string)
    : list Entity :=
  match serialize_course modulestore course_id with
  | Return (nodes, relationships) => entities nodes relationships
  | Raise _ => []
  end.

(** The fields that [serialize_item] sets itself. *)
Definition default_fields : list string :=
  ["edited_on"; "display_name"; "org"; "course"; "run"; "course_key"].

End Neo4j.

(** * Properties *)

(** ** Python lists and ordered dictionaries *)

Lemma py_in_true `{EqDecision A} (x : A) (l : list A) : py_in x l = true <-> x ∈ l.
Proof. unfold py_in. by rewrite bool_decide_eq_true. Qed.

Lemma py_in_false `{EqDecision A} (x : A) (l : list A) : py_in x l = false <-> x ∉ l.
Proof. unfold py_in. by rewrite bool_decide_eq_false. Qed.

Lemma py_index_nonneg {A} (l : list A) (i : Z) :
  (0 <= i)%Z -> py_index l i = from_option Return (Raise IndexError) (l !! Z.to_nat i).
Proof.
  intros Hi. unfold py_index.
  destruct (Z.leb_spec 0 i) as [_|?]; [|lia].
  by destruct (l !! Z.to_nat i).
Qed.

Lemma py_index_Return {A} (l : list A) (i : Z) (x : A) :
  py_index l i = Return x -> x ∈ l.
Proof.
  unfold py_index. intros H.
  destruct (0 <=? i)%Z.
  - destruct (l !! Z.to_nat i) eqn:E; [|done].
    injection H as <-. by eapply list_elem_of_lookup_2.
  - destruct (0 <=? _ + i)%Z; [|done].
    destruct (l !! Z.to_nat _) eqn:E; [|done].
    injection H as <-. by eapply list_elem_of_lookup_2.
Qed.

Lemma list_index_Some `{EqDecision A} (x : A) (l : list A) (i : nat) :
  list_index x l = Some i -> l !! i = Some x.
Proof.
  revert i. induction l as [|y l IH]; intros i; simpl; [done|].
  case_decide as E.
  - intros [= <-]. by subst.
  - destruct (list_index x l) as [j|]; [|done].
    intros [= <-]. by apply IH.
Qed.

Lemma list_index_None `{EqDecision A} (x : A) (l : list A) :
  list_index x l = None <-> x ∉ l.
Proof.
  induction l as [|y l IH]; simpl.
  - split; [intros _; apply not_elem_of_nil | done].
  - case_decide as E.
    + subst. split; [done|]. intros []. by left.
    + rewrite not_elem_of_cons. destruct (list_index x l); simpl.
      * split; [done|]. intros [_ H]. by apply IH in H.
      * split; [|done]. intros _. split; [done|]. by apply IH.
Qed.

Module OrderedDictFacts.
Import OrderedDict.

Section facts.
Context {V : Type}.
Implicit Types (d : t V) (l : list (string * V)) (k : string) (v : V).

Lemma of_pairs_update l : of_pairs l = update [] l.
Proof. done. Qed.

Lemma get_setitem k v d k' :
  get (setitem k v d) k' = if decide (k' = k) then Some v else get d k'.
Proof.
  induction d as [|[k0 v0] d IH]; simpl.
  - by repeat case_decide.
  - destruct (decide (k = k0)) as [->|Hne]; simpl.
    + by repeat case_decide.
    + rewrite IH. repeat case_decide; congruence.
Qed.

Lemma setitem_fresh k v d : k ∉ keys d -> setitem k v d = d ++ [(k, v)].
Proof.
  unfold keys. induction d as [|[k0 v0] d IH]; simpl; [done|].
  rewrite not_elem_of_cons. intros [Hne Hd].
  case_decide; [done|]. by rewrite IH.
Qed.

Lemma keys_setitem_elem k v d : k ∈ keys d -> keys (setitem k v d) = keys d.
Proof.
  unfold keys. induction d as [|[k0 v0] d IH]; simpl.
  - by intros ?%elem_of_nil.
  - intros Hin. case_decide as E; simpl; [done|].
    f_equal. apply IH. apply elem_of_cons in Hin as [?|?]; [congruence|done].
Qed.

Lemma elem_of_keys_setitem k v d k' :
  k' ∈ keys (setitem k v d) <-> k' = k \/ k' ∈ keys d.
Proof.
  destruct (decide (k ∈ keys d)) as [Hin|Hnin].
  - rewrite keys_setitem_elem by done. naive_solver.
  - rewrite setitem_fresh by done. unfold keys. rewrite fmap_app, elem_of_app.
    simpl. rewrite list_elem_of_singleton. naive_solver.
Qed.

Lemma NoDup_keys_setitem k v d : NoDup (keys d) -> NoDup (keys (setitem k v d)).
Proof.
  intros Hd. destruct (decide (k ∈ keys d)) as [Hin|Hnin].
  - by rewrite keys_setitem_elem.
  - rewrite setitem_fresh by done. unfold keys in *. rewrite fmap_app.
    apply NoDup_app. split; [done|]. split.
    + intros x Hx. simpl. rewrite list_elem_of_singleton. by intros ->.
    + apply NoDup_singleton.
Qed.

Lemma elem_of_keys_update l : forall d k,
  k ∈ keys (update d l) <-> k ∈ keys d \/ k ∈ l.*1.
Proof.
  unfold update. induction l as [|[k0 v0] l IH]; intros d k; simpl.
  - rewrite elem_of_nil. naive_solver.
  - rewrite IH, elem_of_keys_setitem, elem_of_cons. naive_solver.
Qed.

Lemma NoDup_keys_update l : forall d, NoDup (keys d) -> NoDup (keys (update d l)).
Proof.
  unfold update. induction l as [|[k0 v0] l IH]; intros d Hd; simpl; [done|].
  by apply IH, NoDup_keys_setitem.
Qed.

Lemma get_update_Some l : forall d k v,
  get (update d l) k = Some v -> (k, v) ∈ l \/ get d k = Some v.
Proof.
  unfold update. induction l as [|[k0 v0] l IH]; intros d k v; simpl.
  - by right.
  - intros [H|H]%IH.
    + left. by right.
    + rewrite get_setitem in H. simpl in H. case_decide as E.
      * injection H as <-. subst. left. by left.
      * by right.
Qed.

Lemma update_fresh l : forall d, NoDup (keys d ++ l.*1) -> update d l = d ++ l.
Proof.
  unfold update. induction l as [|[k0 v0] l IH]; intros d; simpl.
  - intros _. by rewrite app_nil_r.
  - intros Hnd. apply NoDup_app in Hnd as (Hd & Hdisj & Hl).
    apply NoDup_cons in Hl as [Hk0 Hl].
    rewrite setitem_fresh.
    + rewrite IH; [by rewrite <-app_assoc|].
      unfold keys. rewrite fmap_app. simpl. rewrite <-app_assoc. simpl.
      apply NoDup_app. split; [done|]. split; [|by apply NoDup_cons].
      intros x Hx. by apply Hdisj.
    + intros Hin. apply (Hdisj _ Hin). by left.
Qed.

Lemma get_is_Some d k : is_Some (get d k) <-> k ∈ keys d.
Proof.
  unfold keys. induction d as [|[k0 v0] d IH]; simpl.
  - rewrite elem_of_nil. split; [by intros [? ?]|done].
  - rewrite elem_of_cons. case_decide as E.
    + split; [by left|by eauto].
    + rewrite IH. naive_solver.
Qed.

Lemma contains_true k d : contains k d = true <-> k ∈ keys d.
Proof. apply py_in_true. Qed.

(** The dictionary of a list of pairs. *)
Lemma of_pairs_NoDup l : NoDup (keys (of_pairs l)).
Proof. rewrite of_pairs_update. apply NoDup_keys_update, NoDup_nil_2. Qed.

Lemma elem_of_keys_of_pairs l k : k ∈ keys (of_pairs l) <-> k ∈ l.*1.
Proof.
  rewrite of_pairs_update, elem_of_keys_update. unfold keys. simpl.
  rewrite elem_of_nil. naive_solver.
Qed.

Lemma get_of_pairs_Some l k v : get (of_pairs l) k = Some v -> (k, v) ∈ l.
Proof.
  rewrite of_pairs_update. intros [H|H]%get_update_Some; [done|]. done.
Qed.

Lemma of_pairs_fresh l : NoDup l.*1 -> of_pairs l = l.
Proof. intros H. rewrite of_pairs_update. by apply update_fresh. Qed.

End facts.
End OrderedDictFacts.

(** ** The randomize module *)
Module RandomizeSpec.
Import OrderedDict OrderedDictFacts Randomize.

Lemma elem_of_List_filter {A} (f : A -> bool) (l : list A) (x : A) :
  x ∈ List.filter f l <-> x ∈ l /\ f x = true.
Proof. rewrite !list_elem_of_In. apply filter_In. Qed.

Lemma List_filter_filter {A} (f g : A -> bool) (l : list A) :
  List.filter f (List.filter g l) = List.filter (fun x => g x && f x) l.
Proof.
  induction l as [|x l IH]; simpl; [done|].
  destruct (g x); simpl; [|done]. destruct (f x); by rewrite IH.
Qed.

Lemma List_filter_true {A} (l : list A) : List.filter (fun _ => true) l = l.
Proof. induction l as [|x l IH]; simpl; by rewrite ?IH. Qed.

Lemma get_choices_offered self no_repeats suspended :
  get_choices self no_repeats suspended
  = of_pairs (entry <$> List.filter (offered self no_repeats suspended)
                                    (children self)).
Proof.
  unfold get_choices, offered.
  destruct (bool_decide (choice self = None) && no_repeats),
    (truthy suspended); simpl.
  - by rewrite List_filter_filter.
  - f_equal. f_equal. apply filter_ext. intros c. by rewrite andb_true_r.
  - done.
  - by rewrite List_filter_true.
Qed.

Lemma get_choices_all self :
  get_choices self false None = of_pairs (entry <$> children self).
Proof.
  rewrite get_choices_offered. unfold offered. simpl.
  rewrite andb_false_r. simpl. by rewrite List_filter_true.
Qed.

Lemma get_choices_get self no_repeats suspended k c :
  get (get_choices self no_repeats suspended) k = Some c ->
  url (location c) = k /\ c ∈ children self
  /\ offered self no_repeats suspended c = true.
Proof.
  rewrite get_choices_offered. intros H%get_of_pairs_Some.
  apply list_elem_of_fmap in H as (c' & [= -> ->] & Hc).
  apply elem_of_List_filter in Hc as [? ?]. done.
Qed.

Lemma get_choices_keys self no_repeats suspended k :
  k ∈ keys (get_choices self no_repeats suspended) <->
  exists c, c ∈ children self /\ offered self no_repeats suspended c = true
            /\ url (location c) = k.
Proof.
  rewrite get_choices_offered, elem_of_keys_of_pairs.
  rewrite <-list_fmap_compose, list_elem_of_fmap.
  split.
  - intros (c & -> & Hc). apply elem_of_List_filter in Hc as [? ?]. by exists c.
  - intros (c & ? & ? & <-). exists c. split; [done|].
    by apply elem_of_List_filter.
Qed.

(** With a stored choice, a child of that url is dropped from the choices
    only if every child of that url is suspended, the current one included:
    the first step of [pick_choice] keeps the stored choice. *)
Lemma pick_choice_reset_keeps self no_repeats suspended c :
  choice self = Some c ->
  pick_choice_reset suspended (get_choices self no_repeats suspended)
                    (get_choices self false None) self
  = Return self.
Proof.
  intros Hc. unfold pick_choice_reset. rewrite Hc. simpl.
  destruct (get (get_choices self false None) c) as [cc|] eqn:Hget; [|done].
  destruct (contains c (get_choices self no_repeats suspended)) eqn:Hin;
    simpl; [done|].
  apply get_choices_get in Hget as (Hurl & Hcc & _).
  assert (offered self no_repeats suspended cc = false) as Hoff.
  { destruct (offered self no_repeats suspended cc) eqn:E; [|done].
    assert (contains c (get_choices self no_repeats suspended) = true)
      as Hin'; [|congruence].
    apply contains_true, get_choices_keys. by exists cc. }
  unfold offered in Hoff. rewrite Hc in Hoff. simpl in Hoff.
  destruct suspended as [[|s sus]|]; simpl in Hoff; try done.
  apply negb_false_iff in Hoff. simpl. by rewrite Hoff.
Qed.

Lemma pick_choice_select_keeps use_randrange rnd choices self c :
  choice self = Some c ->
  pick_choice_select use_randrange rnd choices self = Return self.
Proof. intros Hc. unfold pick_choice_select. by rewrite Hc. Qed.

Lemma get_children_choice self : choice (get_children self).1 = choice self.
Proof. unfold get_children. by destruct (_loaded_children self). Qed.

Lemma get_children_history self : history (get_children self).1 = history self.
Proof. unfold get_children. by destruct (_loaded_children self). Qed.

Lemma pick_choice_load_choice all_choices self :
  choice (pick_choice_load all_choices self).1 = choice self.
Proof.
  unfold pick_choice_load. destruct (choice self) as [c|] eqn:Hc; [|done].
  destruct (get_children _) as [self' ch] eqn:Hg.
  assert (choice self' = Some c) as Hc'.
  { change self' with (self', ch).1. rewrite <-Hg, get_children_choice.
    done. }
  by destruct ch as [|m [|m' ch]].
Qed.

Lemma pick_choice_load_history all_choices self :
  history (pick_choice_load all_choices self).1 = history self.
Proof.
  unfold pick_choice_load. destruct (choice self) as [c|] eqn:Hc; [|done].
  destruct (get_children _) as [self' ch] eqn:Hg.
  assert (history self' = history self) as Hh.
  { change self' with (self', ch).1. by rewrite <-Hg, get_children_history. }
  by destruct ch as [|m [|m' ch]].
Qed.

(** A stored choice is never replaced by [pick_choice]. *)
Lemma pick_choice_stored use_randrange no_repeats suspended rnd self c :
  choice self = Some c ->
  choice (pick_choice use_randrange no_repeats suspended rnd self).1 = Some c.
Proof.
  intros Hc. unfold pick_choice.
  rewrite (pick_choice_reset_keeps _ _ _ c Hc).
  rewrite (pick_choice_select_keeps _ _ _ _ c Hc).
  by rewrite pick_choice_load_choice.
Qed.


Lemma offered_true self no_repeats suspended c :
  offered self no_repeats suspended c = true <->
  (choice self = None -> no_repeats = true -> url (location c) ∉ history self)
  /\ (forall sus, suspended = Some sus -> name (location c) ∉ sus).
Proof.
  unfold offered. rewrite andb_true_iff.
  assert ((if bool_decide (choice self = None) && no_repeats
           then negb (py_in (url (location c)) (history self)) else true) = true
          <-> (choice self = None -> no_repeats = true ->
               url (location c) ∉ history self)) as ->.
  { destruct (bool_decide (choice self = None)) eqn:E1, no_repeats; simpl.
    - apply bool_decide_eq_true in E1.
      rewrite negb_true_iff, py_in_false. naive_solver.
    - naive_solver.
    - apply bool_decide_eq_false in E1. naive_solver.
    - naive_solver. }
  assert ((if truthy suspended
           then negb (py_in (name (location c)) (the_list suspended)) else true)
          = true
          <-> (forall sus, suspended = Some sus -> name (location c) ∉ sus)) as ->.
  { destruct suspended as [[|s sus]|]; simpl.
    - split; [|done]. intros _ ? [= <-]. apply not_elem_of_nil.
    - rewrite negb_true_iff, py_in_false. naive_solver.
    - naive_solver. }
  done.
Qed.

Lemma NoDup_fmap_List_filter {A B} (f : A -> B) (p : A -> bool) (l : list A) :
  NoDup (f <$> l) -> NoDup (f <$> List.filter p l).
Proof.
  induction l as [|x l IH]; simpl; [done|].
  rewrite NoDup_cons. intros [Hx Hl].
  destruct (p x); simpl; [|by apply IH].
  apply NoDup_cons. split; [|by apply IH].
  intros (y & Hy & Hin)%list_elem_of_fmap. apply Hx.
  apply list_elem_of_fmap. exists y. split; [done|].
  by apply elem_of_List_filter in Hin as [? _].
Qed.

(** C5. [get_choices] returns an ordered dictionary without repeated keys
    in which every entry maps the url of a child to that child; every
    child that is not excluded has its url among the keys; with no stored
    choice and [no_repeats], no key is in the history; with a non-empty
    [suspended], no entry is a child whose name is in that list; and when
    the urls of the children are distinct the entries are the children
    that are kept, in their order: all children, when called with no
    argument. *)
Theorem get_choices_spec (self : RandomizeModule) (no_repeats : bool)
    (suspended : option (list string)) :
  let d := get_choices self no_repeats suspended in
  NoDup (keys d)
  /\ (forall k c, get d k = Some c -> url (location c) = k /\ c ∈ children self)
  /\ (forall c, c ∈ children self ->
        (choice self = None -> no_repeats = true ->
         url (location c) ∉ history self) ->
        (forall sus, suspended = Some sus -> name (location c) ∉ sus) ->
        url (location c) ∈ keys d)
  /\ (choice self = None -> no_repeats = true ->
      forall k, k ∈ keys d -> k ∉ history self)
  /\ (forall sus, suspended = Some sus ->
      forall k c, get d k = Some c -> name (location c) ∉ sus)
  /\ (NoDup (url ∘ location <$> children self) ->
      d = entry <$> List.filter (offered self no_repeats suspended) (children self)
      /\ get_choices self false None = entry <$> children self).
Proof.
  intros d. subst d. repeat split.
  - rewrite get_choices_offered. apply of_pairs_NoDup.
  - by apply get_choices_get in H as (? & ? & ?).
  - by apply get_choices_get in H as (? & ? & ?).
  - intros c Hc Hh Hs. apply get_choices_keys. exists c.
    by rewrite offered_true.
  - intros Hnone Hnr k (c & Hc & Hoff & <-)%get_choices_keys.
    apply offered_true in Hoff as [Hh _]. by apply Hh.
  - intros sus -> k c (_ & _ & Hoff)%get_choices_get.
    apply offered_true in Hoff as [_ Hs]. by apply Hs.
  - rewrite get_choices_offered. apply of_pairs_fresh.
    rewrite <-list_fmap_compose. by apply NoDup_fmap_List_filter.
  - rewrite get_choices_all. apply of_pairs_fresh.
    by rewrite <-list_fmap_compose.
Qed.

Lemma get_choices_spec_witness :
  let self := example_module false (Some 7%Z) None
                [url (location (problem "problem1"))] ["problem2"]
                three_problems in
  get_choices self true (Some ["problem2"])
  = entry <$> List.filter (offered self true (Some ["problem2"])) three_problems
  /\ get_choices self false None = entry <$> three_problems.
Proof.
  refine (proj2 (proj2 (proj2 (proj2 (proj2 (get_choices_spec
    (example_module false (Some 7%Z) None
       [url (location (problem "problem1"))] ["problem2"] three_problems)
    true (Some ["problem2"])))))) _).
  apply (bool_decide_unpack _). vm_compute. exact I.
Defined.

(** The dictionary of the three problems when the second is suspended and
    the first has been seen. *)
Example get_choices_example :
  let self := example_module false (Some 7%Z) None
                [url (location (problem "problem1"))] ["problem2"]
                three_problems in
  get_choices self true (Some ["problem2"]) = [entry (problem "problem3")]
  /\ get_choices self false None = entry <$> three_problems.
Proof. split; reflexivity. Qed.

(** C1. With no stored choice, [n > 0] filtered choices, a seed and
    [use_randrange] false, [pick_choice] stores the key at index
    [seed mod n] of the ordered dictionary; that key depends on the seed
    and the keys only, and every later call of [pick_choice] on the
    instance, whatever its arguments, leaves it stored. *)
Theorem pick_choice_seeded (self : RandomizeModule) (no_repeats : bool)
    (suspended : option (list string)) (rnd : nat) (s : Z) :
  choice self = None ->
  seed (system self) = Some s ->
  let choices := get_choices self no_repeats suspended in
  let n := len choices in
  0 < n ->
  let self' := (pick_choice false no_repeats suspended rnd self).1 in
  exists key,
    keys choices !! Z.to_nat (s mod Z.of_nat n) = Some key
    /\ choice self' = Some key
    /\ forall use_randrange' no_repeats' suspended' rnd',
         choice (pick_choice use_randrange' no_repeats' suspended' rnd' self').1
         = Some key.
Proof.
  intros Hnone Hseed choices n Hn self'.
  assert (0 <= s mod Z.of_nat n < Z.of_nat n)%Z as Hmod
    by (apply Z.mod_pos_bound; lia).
  destruct (lookup_lt_is_Some_2 (keys choices) (Z.to_nat (s mod Z.of_nat n)))
    as [key Hkey].
  { unfold keys. rewrite length_fmap. fold (len choices). fold n. lia. }
  assert (choice self' = Some key) as Hchoice.
  { subst self'. unfold pick_choice, pick_choice_reset.
    rewrite Hnone. simpl. unfold pick_choice_select. rewrite Hnone.
    fold choices. fold n. rewrite bool_decide_eq_true_2 by done.
    rewrite Hseed. rewrite py_index_nonneg by lia. rewrite Hkey. simpl.
    by rewrite pick_choice_load_choice. }
  exists key. split; [done|]. split; [done|].
  intros. by apply pick_choice_stored.
Qed.

Lemma pick_choice_seeded_witness :
  let self := example_module false (Some (-1)%Z) None [] [] three_problems in
  let self' := (pick_choice false false (Some []) 0 self).1 in
  exists key,
    keys (get_choices self false (Some [])) !! Z.to_nat (-1 mod Z.of_nat 3)
    = Some key
    /\ choice self' = Some key
    /\ forall use_randrange' no_repeats' suspended' rnd',
         choice (pick_choice use_randrange' no_repeats' suspended' rnd' self').1
         = Some key.
Proof.
  apply (pick_choice_seeded
           (example_module false (Some (-1)%Z) None [] [] three_problems)
           false (Some []) 0 (-1)%Z); [reflexivity | reflexivity |].
  vm_compute. lia.
Defined.

(** The seed -1 picks the last of three problems. *)
Example pick_choice_seeded_example :
  choice (pick_choice false false (Some []) 0
            (example_module false (Some (-1)%Z) None [] [] three_problems)).1
  = Some (url (location (problem "problem3"))).
Proof. reflexivity. Qed.


(** C4. With a stored choice, [pick_choice] leaves it stored whenever it
    is still a key of the filtered choices, and whenever the chosen
    child's name is in the suspended list; the first step drops it only
    when the chosen child is among all children, is not a key of the
    filtered choices and is not suspended. *)
Theorem pick_choice_frame (self : RandomizeModule)
    (use_randrange no_repeats : bool) (suspended : option (list string))
    (rnd : nat) (c : string) :
  choice self = Some c ->
  let choices := get_choices self no_repeats suspended in
  let all_choices := get_choices self false None in
  let self' := (pick_choice use_randrange no_repeats suspended rnd self).1 in
  (c ∈ keys choices -> choice self' = Some c)
  /\ (forall current_child sus,
        get all_choices c = Some current_child -> suspended = Some sus ->
        name (location current_child) ∈ sus -> choice self' = Some c)
  /\ (forall self1,
        pick_choice_reset suspended choices all_choices self = Return self1 ->
        choice self1 = None ->
        exists current_child,
          get all_choices c = Some current_child
          /\ (c ∉ keys choices)
          /\ (forall sus, suspended = Some sus ->
                          name (location current_child) ∉ sus)).
Proof.
  intros Hc choices all_choices self'. split; [|split].
  - intros _. by apply pick_choice_stored.
  - intros. by apply pick_choice_stored.
  - intros self1. unfold pick_choice_reset. rewrite Hc. simpl.
    destruct (get all_choices c) as [cc|]; [|intros [= <-]; congruence].
    destruct (contains c choices) eqn:Hin; simpl;
      [intros [= <-]; congruence|].
    destruct suspended as [sus|]; [|done].
    destruct (py_in (name (location cc)) sus) eqn:Hsus; simpl;
      [intros [= <-]; congruence|].
    intros _ _. exists cc. split; [done|]. split.
    + rewrite <-contains_true. congruence.
    + intros ? [= <-]. by apply py_in_false.
Qed.

Lemma pick_choice_frame_witness :
  let c := url (location (problem "problem2")) in
  let self := example_module false (Some 7%Z) (Some c) [] ["problem2"]
                             three_problems in
  choice (pick_choice false true (Some ["problem2"]) 0 self).1 = Some c.
Proof.
  refine (proj1 (proj2 (pick_choice_frame
      (example_module false (Some 7%Z)
         (Some (url (location (problem "problem2")))) [] ["problem2"]
         three_problems)
      false true (Some ["problem2"]) 0
      (url (location (problem "problem2"))) eq_refl))
    (problem "problem2") ["problem2"] eq_refl eq_refl _).
  apply list_elem_of_here.
Defined.

(** The stored choice is kept although its problem is suspended and is not
    among the filtered choices. *)
Example pick_choice_frame_example :
  let c := url (location (problem "problem2")) in
  let self := example_module false (Some 7%Z) (Some c) [] ["problem2"]
                             three_problems in
  contains c (get_choices self true (Some ["problem2"])) = false
  /\ get (get_choices self false None) c = Some (problem "problem2")
  /\ choice (pick_choice false true (Some ["problem2"]) 0 self).1 = Some c.
Proof. repeat split; reflexivity. Qed.

(** C7. With no stored choice and no filtered choice left, [pick_choice]
    stores the last element of the history; when the history is empty
    too, the call returns, the choice stays [None], [child_descriptor]
    and [child] are [None], [get_child_descriptors] gives the empty list
    and [student_view] the fragment that says so. *)
Theorem pick_choice_no_choices (self : RandomizeModule)
    (use_randrange no_repeats : bool) (suspended : option (list string))
    (rnd : nat) :
  choice self = None ->
  len (get_choices self no_repeats suspended) = 0 ->
  let r := pick_choice use_randrange no_repeats suspended rnd self in
  choice (fst r) = last (history self)
  /\ (history self = [] ->
      (snd r) = Return tt
      /\ choice (fst r) = None
      /\ child_descriptor (fst r) = None
      /\ child (fst r) = None
      /\ get_child_descriptors (fst r) = []
      /\ student_view (fst r)
         = (fst r, Return {| content := "<div>Nothing to randomize between</div>" |})).
Proof.
  intros Hnone Hlen r. subst r. unfold pick_choice, pick_choice_reset.
  rewrite Hnone. simpl. unfold pick_choice_select. rewrite Hnone, Hlen.
  simpl. split.
  - destruct (last (history self)); simpl;
      rewrite pick_choice_load_choice; simpl; [done|]. by rewrite Hnone.
  - intros ->. simpl. unfold pick_choice_load. rewrite Hnone. simpl.
    by repeat split.
Qed.

Lemma pick_choice_no_choices_witness :
  let self := example_module false (Some 7%Z) None
                [url (location (problem "problem1"))] ["problem1"]
                [problem "problem1"] in
  choice (pick_choice false true (Some ["problem1"]) 0 self).1
  = Some (url (location (problem "problem1"))).
Proof.
  exact (proj1 (pick_choice_no_choices
    (example_module false (Some 7%Z) None
       [url (location (problem "problem1"))] ["problem1"] [problem "problem1"])
    false true (Some ["problem1"]) 0 eq_refl eq_refl)).
Defined.

(** A randomize block without children. *)
Example pick_choice_nothing_example :
  let r := pick_choice false false (Some []) 0
             (example_module false (Some 7%Z) None [] [] []) in
  snd r = Return tt /\ choice (fst r) = None /\ child (fst r) = None
  /\ snd (student_view (fst r))
     = Return {| content := "<div>Nothing to randomize between</div>" |}.
Proof. repeat split; reflexivity. Qed.


(** What each method does to the history. *)
Lemma pick_choice_history use_randrange no_repeats suspended rnd self :
  history (pick_choice use_randrange no_repeats suspended rnd self).1
  = history self.
Proof.
  unfold pick_choice.
  destruct (pick_choice_reset _ _ _ self) as [self1|] eqn:H1; [|done].
  assert (history self1 = history self) as <-.
  { unfold pick_choice_reset in H1.
    destruct (get_opt _ _); [|by injection H1 as <-].
    destruct (negb (contains_opt _ _)); [|by injection H1 as <-].
    destruct suspended; [|done].
    destruct (negb (py_in _ _)); by injection H1 as <-. }
  destruct (pick_choice_select _ _ _ self1) as [self2|] eqn:H2; [|done].
  assert (history self2 = history self1) as <-.
  { unfold pick_choice_select in H2.
    destruct (choice self1); [by injection H2 as <-|].
    case_bool_decide.
    - destruct (seed (system self1)), use_randrange;
        try by injection H2 as <-.
      destruct (py_index _ _); [by injection H2 as <-|done].
    - destruct (last _); by injection H2 as <-. }
  apply pick_choice_load_history.
Qed.

Lemma handle_ajax_try_frame dispatch data choices index self self' :
  handle_ajax_try dispatch data choices index self = Return self' ->
  self' = set_choice (choice self') self.
Proof.
  unfold handle_ajax_try. destruct self. repeat case_bool_decide.
  - destruct (py_index _ _); [|done]. by intros [= <-].
  - destruct (data !! "choice"); [|done]. destruct (py_int _); [|done].
    destruct (py_index _ _); [|done]. by intros [= <-].
  - by intros [= <-].
Qed.

Lemma handle_ajax_frame dispatch data self :
  (handle_ajax dispatch data self).1
  = set_choice (choice (handle_ajax dispatch data self).1) self.
Proof.
  unfold handle_ajax. destruct (user_is_staff _); [|by destruct self].
  destruct (get_choice_index _ _ _) as [index|]; [|by destruct self].
  destruct (handle_ajax_try _ _ _ _ _) as [self'|e] eqn:Ht.
  - simpl. by eapply handle_ajax_try_frame.
  - destruct e; by destruct self.
Qed.

Lemma handle_ajax_history dispatch data self :
  history (handle_ajax dispatch data self).1 = history self.
Proof. by rewrite handle_ajax_frame. Qed.

Lemma student_view_history_eq self :
  history (student_view self).1
  = match child self with
    | Some ch =>
        if bool_decide (url (module_location ch) ∈ history self)
        then history self
        else history self ++ [url (module_location ch)]
    | None => history self
    end.
Proof.
  unfold student_view. destruct (child self) as [ch|]; [|done].
  unfold py_in. case_bool_decide; simpl.
  - destruct (user_is_staff _); [|done]. by destruct (get_choice_index _ _ _).
  - destruct (user_is_staff _); [|done]. by destruct (get_choice_index _ _ _).
Qed.

Lemma call_NoDup m self : NoDup (history self) -> NoDup (history (call m self)).
Proof.
  intros Hnd. destruct m; simpl.
  - by rewrite pick_choice_history.
  - by rewrite get_children_history.
  - rewrite student_view_history_eq. destruct (child self) as [ch|]; [|done].
    case_bool_decide; [done|].
    apply NoDup_app. split; [done|]. split; [|apply NoDup_singleton].
    intros x Hx ->%list_elem_of_singleton. done.
  - by rewrite handle_ajax_history.
Qed.

(** C6. [student_view] appends the url of the rendered child to the
    history only when the history does not hold it; no other method
    changes the history; so a history without repetition stays without
    repetition under every sequence of calls, and a history that starts
    empty never holds a url twice. *)
Theorem student_view_history (self : RandomizeModule) :
  history (student_view self).1
  = match child self with
    | Some ch =>
        if bool_decide (url (module_location ch) ∈ history self)
        then history self
        else history self ++ [url (module_location ch)]
    | None => history self
    end
  /\ (forall m, m <> StudentView -> history (call m self) = history self)
  /\ (forall ms, NoDup (history self) -> NoDup (history (run ms self)))
  /\ (forall ms, history self = [] -> NoDup (history (run ms self))).
Proof.
  assert (forall ms self0, NoDup (history self0) ->
                           NoDup (history (run ms self0))) as Hrun.
  { unfold run. induction ms as [|m ms IH]; intros self0 Hnd; simpl; [done|].
    by apply IH, call_NoDup. }
  split; [apply student_view_history_eq|]. split; [|split].
  - intros m Hm. destruct m; simpl.
    + apply pick_choice_history.
    + apply get_children_history.
    + done.
    + apply handle_ajax_history.
  - intros ms. apply Hrun.
  - intros ms Hnil. apply Hrun. rewrite Hnil. apply NoDup_nil_2.
Qed.

Lemma student_view_history_witness :
  let self := example_module true (Some 7%Z) None [] [] three_problems in
  NoDup (history (run [PickChoice false false (Some []) 0; StudentView;
                       HandleAjax "next" ∅; StudentView; StudentView] self)).
Proof.
  exact (proj1 (proj2 (proj2 (student_view_history
    (example_module true (Some 7%Z) None [] [] three_problems))))
    [PickChoice false false (Some []) 0; StudentView;
     HandleAjax "next" ∅; StudentView; StudentView]
    (NoDup_nil_2 (A:=string))).
Defined.

(** The history after two views of the same child. *)
Example student_view_history_example :
  history (run [PickChoice false false (Some []) 0; StudentView; StudentView]
               (example_module false (Some 7%Z) None [] [] three_problems))
  = [url (location (problem "problem2"))].
Proof. reflexivity. Qed.


(** The index that [handle_ajax] and [student_view] ask for. *)
Lemma get_choice_index_keys self :
  let choices := keys (get_choices self false None) in
  get_choice_index self None (Some choices)
  = match choice self ≫= (fun c => list_index c choices) with
    | Some i => Return i
    | None => Raise ValueError
    end.
Proof.
  intros choices. unfold get_choice_index. fold choices.
  by destruct choices.
Qed.

Lemma get_choice_index_returns self :
  let choices := keys (get_choices self false None) in
  returns (get_choice_index self None (Some choices)) = true
  <-> exists c, choice self = Some c /\ c ∈ choices.
Proof.
  intros choices. rewrite get_choice_index_keys. fold choices.
  destruct (choice self) as [c|]; simpl.
  - destruct (list_index c choices) as [i|] eqn:Hi; simpl.
    + split; [|done]. intros _. exists c. split; [done|].
      apply list_index_Some in Hi. by eapply list_elem_of_lookup_2.
    + apply list_index_None in Hi. split; [done|].
      by intros (? & [= <-] & ?).
  - split; [done|]. by intros (? & ? & ?).
Qed.

Lemma py_index_range {A} (l : list A) (i : Z) (x : A) :
  py_index l i = Return x ->
  (- Z.of_nat (length l) <= i < Z.of_nat (length l))%Z.
Proof.
  unfold py_index. destruct (Z.leb_spec 0 i).
  - destruct (l !! Z.to_nat i) eqn:E; [|done]. intros _.
    apply lookup_lt_Some in E. lia.
  - destruct (Z.leb_spec 0 (Z.of_nat (length l) + i)); [|done]. lia.
Qed.

Local Ltac ajax_done :=
  try done; try (by intros ? [= <-]); try (by intros ? ? [= <-]);
  try (by intros ? ? ? [= <-]); try (by intros ? ? [= <-] ?);
  try (split; [intros _; by left | done]).

Lemma handle_ajax_try_raises dispatch data self index e :
  let choices := keys (get_choices self false None) in
  get_choice_index self None (Some choices) = Return index ->
  handle_ajax_try dispatch data choices index self = Raise e ->
  fst (handle_ajax dispatch data self) = self.
Proof.
  intros choices Hi Ht. unfold handle_ajax. fold choices.
  destruct (user_is_staff _); [|done]. rewrite Hi, Ht. by destruct e.
Qed.

Lemma handle_ajax_cases (dispatch : string) (data : gmap string string)
    (self : RandomizeModule) :
  let choices := keys (get_choices self false None) in
  let r := handle_ajax dispatch data self in
  (choice (fst r) <> choice self ->
      user_is_staff (system self) = true
      /\ exists index c,
           get_choice_index self None (Some choices) = Return index
           /\ choice (fst r) = Some c
           /\ ((dispatch = "next" /\ choices !! (index + 1) = Some c)
               \/ (dispatch = "jump"
                   /\ exists text i,
                        data !! "choice" = Some text
                        /\ py_int text = Some i
                        /\ (- Z.of_nat (length choices) <= i
                            < Z.of_nat (length choices))%Z
                        /\ py_index choices i = Return c)))
  /\ (user_is_staff (system self) = false -> fst r = self)
  /\ (dispatch <> "next" -> dispatch <> "jump" -> fst r = self)
  /\ (forall j, snd r = Return j ->
        j = json_dumps [("ret", "choice=" +:+ str_of_choice (choice (fst r)))])
  /\ (returns (snd r) = true
      <-> user_is_staff (system self) = false
          \/ ((exists c, choice self = Some c /\ c ∈ choices)
              /\ ~ (dispatch = "jump" /\ data !! "choice" = None))).
Proof.
  intros choices r.
  assert (returns (get_choice_index self None (Some choices)) = true
          <-> exists c, choice self = Some c /\ c ∈ choices) as Hidx
    by apply get_choice_index_returns.
  subst r. unfold handle_ajax. fold choices.
  destruct (user_is_staff (system self)) eqn:Hstaff; simpl.
  2:{ split_and!; ajax_done. }
  destruct (get_choice_index self None (Some choices)) as [index|e0] eqn:Hi;
    simpl.
  2:{ split_and!; ajax_done.
      split; [done|]. intros [|[Hc _]]; [done|]. by apply Hidx in Hc. }
  assert (exists c, choice self = Some c /\ c ∈ choices) as Hkey
    by by apply Hidx.
  assert (forall e, py_index choices (Z.of_nat index + 1) = Raise e ->
                    e = IndexError) as Hnext_err.
  { intros e. unfold py_index. repeat case_match; congruence. }
  assert (forall i e, py_index choices i = Raise e -> e = IndexError)
    as Hjump_err.
  { intros i e. unfold py_index. repeat case_match; congruence. }
  unfold handle_ajax_try.
  destruct (bool_decide (dispatch = "next")) eqn:Hnext.
  { apply bool_decide_eq_true in Hnext.
    assert (dispatch <> "jump") as Hnj by (by subst).
    destruct (py_index choices (Z.of_nat index + 1)) as [c|e] eqn:Hpy;
      [|rewrite (Hnext_err e eq_refl)]; simpl.
    - split_and!; ajax_done.
      + intros _. split; [done|]. exists index, c. split_and!; try done.
        left. split; [done|].
        rewrite py_index_nonneg in Hpy by lia.
        replace (Z.to_nat (Z.of_nat index + 1)) with (index + 1) in Hpy by lia.
        by destruct (choices !! (index + 1)); simplify_eq/=.
      + split; [|done]. intros _. right. split; [done|]. by intros [? _].
    - split_and!; ajax_done.
      split; [|done]. intros _. right. split; [done|]. by intros [? _]. }
  apply bool_decide_eq_false in Hnext.
  destruct (bool_decide (dispatch = "jump")) eqn:Hjump.
  2:{ apply bool_decide_eq_false in Hjump. simpl. split_and!; ajax_done.
      split; [|done]. intros _. right. split; [done|]. by intros [? _]. }
  apply bool_decide_eq_true in Hjump.
  destruct (data !! "choice") as [text|] eqn:Hdata; simpl.
  2:{ split_and!; ajax_done.
      split; [done|]. intros [|[_ Hn]]; [done|]. by destruct Hn. }
  destruct (py_int text) as [i|] eqn:Hint; simpl.
  2:{ split_and!; ajax_done.
      split; [|done]. intros _. right. split; [done|]. by intros [_ ?]. }
  destruct (py_index choices i) as [c|e] eqn:Hpy;
    [|rewrite (Hjump_err i e Hpy)]; simpl.
  - split_and!; ajax_done.
    + intros _. split; [done|]. exists index, c. split_and!; try done.
      right. split; [done|].
      pose proof (py_index_range _ _ _ Hpy) as Hrange.
      exists text, i. split_and!; try done; lia.
    + split; [|done]. intros _. right. split; [done|]. by intros [_ ?].
  - split_and!; ajax_done.
    split; [|done]. intros _. right. split; [done|]. by intros [_ ?].
Qed.

(** C10, as the code has it. [handle_ajax] changes nothing but the stored
    choice, and changes it only for a staff user, to the key after the
    current one on ['next'] or to the key at the index that
    [data['choice']] parses to on ['jump'], an index of the list in
    Python's sense; for other users, for another dispatch and whenever the
    [try] block raises, the instance is unchanged; whenever the call
    returns, it returns the object whose ['ret'] reports the choice then
    stored; and it returns exactly when the user is not staff, or the
    stored choice is a key of the choices and a ['jump'] comes with a
    ['choice'] entry. *)
Theorem handle_ajax_spec (dispatch : string) (data : gmap string string)
    (self : RandomizeModule) :
  let choices := keys (get_choices self false None) in
  let r := handle_ajax dispatch data self in
  fst r = set_choice (choice (fst r)) self
  /\ (choice (fst r) <> choice self ->
      user_is_staff (system self) = true
      /\ exists index c,
           get_choice_index self None (Some choices) = Return index
           /\ choice (fst r) = Some c
           /\ ((dispatch = "next" /\ choices !! (index + 1) = Some c)
               \/ (dispatch = "jump"
                   /\ exists text i,
                        data !! "choice" = Some text
                        /\ py_int text = Some i
                        /\ (- Z.of_nat (length choices) <= i
                            < Z.of_nat (length choices))%Z
                        /\ py_index choices i = Return c)))
  /\ (user_is_staff (system self) = false -> fst r = self)
  /\ (dispatch <> "next" -> dispatch <> "jump" -> fst r = self)
  /\ (forall index e,
        get_choice_index self None (Some choices) = Return index ->
        handle_ajax_try dispatch data choices index self = Raise e ->
        fst r = self)
  /\ (forall j, snd r = Return j ->
        j = json_dumps [("ret", "choice=" +:+ str_of_choice (choice (fst r)))])
  /\ (returns (snd r) = true
      <-> user_is_staff (system self) = false
          \/ ((exists c, choice self = Some c /\ c ∈ choices)
              /\ ~ (dispatch = "jump" /\ data !! "choice" = None))).
Proof.
  intros choices r.
  destruct (handle_ajax_cases dispatch data self) as (H1 & H2 & H3 & H4 & H5).
  split; [apply handle_ajax_frame|]. split_and!; try done.
  intros index e. apply handle_ajax_try_raises.
Qed.

Lemma handle_ajax_spec_witness :
  let self := (pick_choice false false (Some []) 0
                 (example_module true (Some 7%Z) None [] [] three_problems)).1 in
  let choices := keys (get_choices self false None) in
  let r := handle_ajax "jump" {["choice" := "-1"]} self in
  user_is_staff (system self) = true
  /\ exists index c,
       get_choice_index self None (Some choices) = Return index
       /\ choice (fst r) = Some c
       /\ (("jump" = "next" /\ choices !! (index + 1) = Some c)
           \/ ("jump" = "jump"
               /\ exists text i,
                    ({["choice" := "-1"]} : gmap string string) !! "choice"
                    = Some text
                    /\ py_int text = Some i
                    /\ (- Z.of_nat (length choices) <= i
                        < Z.of_nat (length choices))%Z
                    /\ py_index choices i = Return c)).
Proof.
  refine (proj1 (proj2 (handle_ajax_spec "jump" {["choice" := "-1"]}
    (pick_choice false false (Some []) 0
       (example_module true (Some 7%Z) None [] [] three_problems)).1)) _).
  vm_compute. intros H. discriminate H.
Defined.

(** A staff user on a block without children gets no result: no choice is
    stored, the look-up of its index raises outside the [try] block, and
    nothing is returned. *)
Lemma handle_ajax_no_result :
  user_is_staff (system empty_block) = true
  /\ snd (handle_ajax "next" ∅ empty_block) = Raise ValueError
  /\ ~ exists j, snd (handle_ajax "next" ∅ empty_block) = Return j.
Proof.
  split; [reflexivity|]. split; [reflexivity|]. by intros [j H].
Qed.

(** A jump without the ['choice'] entry raises as well. *)
Example handle_ajax_jump_no_entry :
  let self := (pick_choice false false (Some []) 0
                 (example_module true (Some 7%Z) None [] [] three_problems)).1 in
  snd (handle_ajax "jump" ∅ self) = Raise KeyError.
Proof. reflexivity. Qed.

(** Jumps of a staff user: index -1 is the last key, 3 is out of range and
    text that is not a number is ignored. *)
Example handle_ajax_jump_example :
  let self := (pick_choice false false (Some []) 0
                 (example_module true (Some 7%Z) None [] [] three_problems)).1 in
  choice (fst (handle_ajax "jump" {["choice" := "-1"]} self))
  = Some (url (location (problem "problem3")))
  /\ choice (fst (handle_ajax "jump" {["choice" := "3"]} self)) = choice self
  /\ handle_ajax "jump" {["choice" := "two"]} self
     = (self, Return (json_dumps
          [("ret", "choice=i4x://edX/demo/problem/problem2")])).
Proof. repeat split; reflexivity. Qed.

End RandomizeSpec.

(** ** The dump to neo4j *)
Module Neo4jSpec.
Import Neo4j.

Lemma remove_dups_NoDup `{EqDecision A} (l : list A) :
  NoDup l -> remove_dups l = l.
Proof.
  induction 1 as [|x l Hx Hl IH]; simpl; [done|].
  destruct (decide_rel elem_of x l); [done|]. by rewrite IH.
Qed.

(** The loop over the elements returns the texts, after those it has. *)
Lemma unicode_elements_Return l : forall acc r,
  unicode_elements l acc = Return r <->
  exists texts, Forall2 (fun a t => unicode a = Return t) l texts
                /\ r = acc ++ texts.
Proof.
  induction l as [|a l IH]; intros acc r; simpl.
  - split.
    + intros [= <-]. exists []. split; [constructor|]. by rewrite app_nil_r.
    + intros (texts & ->%Forall2_nil_inv_l & ->). by rewrite app_nil_r.
  - destruct (unicode a) as [u|e] eqn:Hu.
    + rewrite IH. split.
      * intros (texts & Hall & ->). exists (u :: texts).
        split; [by constructor|]. by rewrite <-app_assoc.
      * intros (texts & Hall & ->).
        apply Forall2_cons_inv_l in Hall as (t & texts' & Ht & Hall & ->).
        exists texts'. split; [done|]. rewrite <-app_assoc. simpl. congruence.
    + split; [done|]. intros (texts & Hall & _).
      apply Forall2_cons_inv_l in Hall as (t & ? & Ht & _). congruence.
Qed.

Lemma unicode_elements_returns l : forall acc,
  returns (unicode_elements l acc) = true
  <-> Forall (fun a => returns (unicode a) = true) l.
Proof.
  induction l as [|a l IH]; intros acc; simpl.
  - split; [constructor|done].
  - rewrite Forall_cons. destruct (unicode a) as [u|e]; simpl.
    + rewrite IH. naive_solver.
    + naive_solver.
Qed.

Lemma unicode_elements_AUnicode texts : forall acc,
  unicode_elements (AUnicode <$> texts) acc = Return (acc ++ texts).
Proof.
  induction texts as [|t texts IH]; intros acc; simpl.
  - by rewrite app_nil_r.
  - rewrite IH. by rewrite <-app_assoc.
Qed.

(** [coerce_types] on a value that it has returned. *)
Lemma coerce_types_fixed v r : coerce_types v = Return r -> coerce_types r = Return r.
Proof.
  unfold coerce_types.
  destruct (iterable_elements v) as [l|] eqn:Hit.
  - destruct (unicode_elements l []) as [texts|] eqn:Hl; [|done].
    intros [= <-].
    destruct v; simplify_eq/=; rewrite unicode_elements_AUnicode; simpl;
      by rewrite ?remove_dups_NoDup by apply NoDup_remove_dups.
  - destruct v as [a| | | |]; try done. simpl.
    destruct (is_primitive a) eqn:Hp; simpl.
    + intros [= <-]. simpl. by rewrite Hp.
    + destruct (unicode a); [|done]. by intros [= <-].
Qed.

(** A list with a byte string outside ASCII cannot be coerced. *)
Lemma coerce_types_not_total :
  coerce_types (VList [AStr "é"]) = Raise UnicodeDecodeError
  /\ ~ exists r, coerce_types (VList [AStr "é"]) = Return r.
Proof. split; [reflexivity|]. by intros [r H]. Qed.

(** C9, as the code has it. [coerce_types] returns exactly when the
    conversions to unicode that it makes succeed; it then returns a
    primitive value unchanged, a tuple, list, set or frozenset as a
    collection of the same type with the unicode text of every element
    (a set with one copy of each text), and any other value as its
    unicode text; and applied to a value that it has returned, it returns
    that value again. *)
Theorem coerce_types_spec (v : value) :
  (returns (coerce_types v) = true
   <-> match v with
       | Atom a => is_primitive a = true \/ returns (unicode a) = true
       | VTuple l | VList l | VSet l | VFrozenset l =>
           Forall (fun a => returns (unicode a) = true) l
       end)
  /\ (forall a, v = Atom a -> is_primitive a = true -> coerce_types v = Return v)
  /\ (forall a t, v = Atom a -> is_primitive a = false ->
        unicode a = Return t -> coerce_types v = Return (Atom (AUnicode t)))
  /\ (forall l texts, Forall2 (fun a t => unicode a = Return t) l texts ->
        (v = VTuple l -> coerce_types v = Return (VTuple (AUnicode <$> texts)))
        /\ (v = VList l -> coerce_types v = Return (VList (AUnicode <$> texts)))
        /\ (v = VSet l ->
            coerce_types v = Return (VSet (AUnicode <$> remove_dups texts)))
        /\ (v = VFrozenset l ->
            coerce_types v
            = Return (VFrozenset (AUnicode <$> remove_dups texts))))
  /\ (forall r, coerce_types v = Return r -> coerce_types r = Return r).
Proof.
  split_and!.
  - unfold coerce_types. destruct v as [a|l|l|l|l]; simpl;
      try (rewrite <-(unicode_elements_returns l []);
           by destruct (unicode_elements l [])).
    destruct (is_primitive a); simpl; [naive_solver|].
    destruct (unicode a); simpl; naive_solver.
  - intros a -> Hp. unfold coerce_types. simpl. by rewrite Hp.
  - intros a t -> Hp Hu. unfold coerce_types. simpl. by rewrite Hp, Hu.
  - intros l texts Hall.
    assert (unicode_elements l [] = Return texts) as Hl
      by (apply unicode_elements_Return; by exists texts).
    split_and!; intros ->; unfold coerce_types; simpl; by rewrite Hl.
  - apply coerce_types_fixed.
Qed.

Lemma coerce_types_spec_witness :
  coerce_types (VSet [AInt 1; AStr "1"; ANone; ABool true])
  = Return (VSet (AUnicode <$> remove_dups ["1"; "1"; "None"; "True"])).
Proof.
  refine (proj1 (proj2 (proj2 (proj1 (proj2 (proj2 (proj2
    (coerce_types_spec (VSet [AInt 1; AStr "1"; ANone; ABool true])))))
    [AInt 1; AStr "1"; ANone; ABool true] ["1"; "1"; "None"; "True"] _)))
    eq_refl).
  repeat constructor.
Defined.

(** What [coerce_types] makes of some values. *)
Example coerce_types_example :
  coerce_types (Atom (AStr "é")) = Return (Atom (AStr "é"))
  /\ coerce_types (Atom ANone) = Return (Atom (AUnicode "None"))
  /\ coerce_types (VTuple [AInt (-20); AFloat "1.5"; AUnicode "é"])
     = Return (VTuple [AUnicode "-20"; AUnicode "1.5"; AUnicode "é"])
  /\ coerce_types (VSet [AInt 1; AStr "1"]) = Return (VSet [AUnicode "1"]).
Proof. repeat split; reflexivity. Qed.


(** The loop over the fields, from a dictionary [base] that is updated
    while the fields of [m] are visited. *)
Lemma coerce_fields_fold (base m : gmap string value) :
  match map_fold
          (fun field_name value acc =>
             match acc with
             | Raise e => Raise e
             | Return fields =>
                 match coerce_types value with
                 | Return v => Return (<[field_name := v]> fields)
                 | Raise e => Raise e
                 end
             end) (Return base) m with
  | Return props =>
      (forall k, props !! k
                 = match m !! k with Some v => coerced v | None => base !! k end)
      /\ map_Forall (fun _ v => returns (coerce_types v) = true) m
  | Raise _ => exists k v, m !! k = Some v /\ returns (coerce_types v) = false
  end.
Proof.
  apply (map_fold_weak_ind (fun r m =>
    match r with
    | Return props =>
        (forall k, props !! k
                   = match m !! k with Some v => coerced v | None => base !! k end)
        /\ map_Forall (fun _ v => returns (coerce_types v) = true) m
    | Raise _ => exists k v, m !! k = Some v /\ returns (coerce_types v) = false
    end)).
  - split; [|apply map_Forall_empty]. intros k. by rewrite lookup_empty.
  - intros i x m' r Hi IH. destruct r as [props|e].
    + destruct IH as [Hprops Hall].
      destruct (coerce_types x) as [v|e] eqn:Hx.
      * split.
        -- intros k. destruct (decide (i = k)) as [->|Hne].
           ++ rewrite !lookup_insert_eq. unfold coerced. by rewrite Hx.
           ++ rewrite !lookup_insert_ne by done. apply Hprops.
        -- apply map_Forall_insert; [done|]. split; [|done]. by rewrite Hx.
      * exists i, x. rewrite lookup_insert_eq. split; [done|]. by rewrite Hx.
    + destruct IH as (k & v & Hk & Hv). exists k, v. split; [|done].
      rewrite lookup_insert_ne; [done|]. intros ->. congruence.
Qed.

Lemma coerce_fields_Return fields props :
  coerce_fields fields = Return props ->
  forall k, props !! k = fields !! k ≫= coerced.
Proof.
  intros H k. pose proof (coerce_fields_fold fields fields) as Hf.
  unfold coerce_fields in H. rewrite H in Hf. destruct Hf as [Hf _].
  rewrite Hf. by destruct (fields !! k) eqn:E.
Qed.

Lemma coerce_fields_returns fields :
  map_Forall (fun _ v => returns (coerce_types v) = true) fields ->
  exists props, coerce_fields fields = Return props.
Proof.
  intros Hall. pose proof (coerce_fields_fold fields fields) as Hf.
  unfold coerce_fields. destruct (map_fold _ _ _) as [props|e]; [by eexists|].
  destruct Hf as (k & v & Hk & Hv). apply Hall in Hk. simpl in Hk. congruence.
Qed.

Lemma serialize_item_label item fields lbl :
  serialize_item item = Return (fields, lbl) -> lbl = block_type item.
Proof.
  unfold serialize_item. destruct (unicode _); [|done]. by intros [= _ <-].
Qed.

(** The first loop, from any state that it can have reached. *)
Lemma create_nodes_Return items : forall nodes0 l2n0 nodes l2n,
  create_nodes items nodes0 l2n0 = Return (nodes, l2n) ->
  exists new,
    nodes = nodes0 ++ new
    /\ Forall2 node_of_item items new
    /\ node_id <$> new = seq (length nodes0) (length items)
    /\ forall loc, l2n !! loc
                   = from_option Some (l2n0 !! loc) (node_for items new loc).
Proof.
  induction items as [|item items IH]; intros nodes0 l2n0 nodes l2n; simpl.
  - intros [= <- <-]. exists []. rewrite app_nil_r. by repeat split.
  - destruct (serialize_item item) as [[fields lbl]|] eqn:Hs; [|done].
    destruct (coerce_fields fields) as [props|] eqn:Hc; [|done].
    intros (new & -> & Hall & Hids & Hmap)%IH.
    exists ({| node_id := length nodes0; label := lbl; properties := props |}
            :: new).
    split_and!.
    + by rewrite <-app_assoc.
    + constructor; [|done].
      pose proof (serialize_item_label _ _ _ Hs) as ->.
      split; [done|]. exists fields. split; [done|].
      by apply coerce_fields_Return.
    + rewrite length_app in Hids. simpl in *.
      replace (length nodes0 + 1) with (S (length nodes0)) in Hids by lia.
      f_equal. exact Hids.
    + intros loc. rewrite Hmap.
      destruct (node_for items new loc) as [n|]; simpl; [done|].
      case_decide as Hloc.
      * subst. by rewrite lookup_insert_eq.
      * by rewrite lookup_insert_ne.
Qed.

Lemma create_nodes_returns items : forall nodes0 l2n0,
  Forall (fun item => serializable item = true) items ->
  exists res, create_nodes items nodes0 l2n0 = Return res.
Proof.
  induction items as [|item items IH]; intros nodes0 l2n0 Hall; simpl.
  - by eexists.
  - apply Forall_cons in Hall as [Hitem Hall]. unfold serializable in Hitem.
    destruct (serialize_item item) as [[fields lbl]|]; [|done].
    apply bool_decide_eq_true in Hitem.
    destruct (coerce_fields_returns fields Hitem) as [props ->].
    by apply IH.
Qed.

(** The two loops over the children append one list after the other. *)
Lemma child_relationships_app l2n item child_locs : forall rels,
  child_relationships l2n item child_locs rels
  = rels ++ (child_locs ≫= parent_of (fun loc => l2n !! loc) item).
Proof.
  induction child_locs as [|loc child_locs IH]; intros rels; simpl.
  - by rewrite app_nil_r.
  - rewrite IH. unfold parent_of at 2.
    destruct (l2n !! location item), (l2n !! loc);
      by rewrite <-?app_assoc.
Qed.

Lemma create_relationships_app l2n items : forall rels,
  create_relationships l2n items rels
  = rels ++ (items ≫= fun item =>
               get_children item ≫= parent_of (fun loc => l2n !! loc) item).
Proof.
  induction items as [|item items IH]; intros rels; simpl.
  - by rewrite app_nil_r.
  - rewrite IH, child_relationships_app. by rewrite <-app_assoc.
Qed.

Lemma node_for_None items : forall nodes loc,
  length nodes = length items ->
  node_for items nodes loc = None <-> loc ∉ location <$> items.
Proof.
  induction items as [|item items IH]; intros [|node nodes] loc Hlen;
    simplify_eq/=.
  - split; [intros _; apply not_elem_of_nil|done].
  - rewrite not_elem_of_cons, <-(IH nodes loc) by done.
    destruct (node_for items nodes loc); [naive_solver|].
    case_decide; naive_solver.
Qed.

Lemma node_for_Some items : forall nodes loc n,
  node_for items nodes loc = Some n ->
  exists i item, items !! i = Some item /\ nodes !! i = Some n
                 /\ location item = loc.
Proof.
  induction items as [|item items IH]; intros [|node nodes] loc n; try done.
  simpl. destruct (node_for items nodes loc) as [n'|] eqn:Hn.
  - intros [= <-]. destruct (IH _ _ _ Hn) as (i & item' & ? & ? & ?).
    by exists (S i), item'.
  - case_decide; [|done]. intros [= <-]. by exists 0, item.
Qed.


(** A course with an item that cannot be coerced is not serialized. *)
Lemma serialize_course_raises :
  serialize_course example_store "latin" = Raise UnicodeDecodeError
  /\ ~ exists r, serialize_course example_store "latin" = Return r.
Proof.
  assert (serialize_course example_store "latin" = Raise UnicodeDecodeError)
    as H by (vm_compute; reflexivity).
  split; [done|]. intros [r Hr]. congruence.
Qed.

(** C3, as the code has it. For every course whose items can all be
    serialized, [serialize_course] returns one node per item of the
    modulestore, in their order, labelled with the block type of the item
    and carrying the coerced values of its fields, and one [PARENT_OF]
    relationship for each child of each item such that the location of the
    child is the location of an item, from the node of the item to the
    node of that location; a child whose location is not the location of
    an item gives no relationship, and there is nothing else. *)
Theorem serialize_course_spec (modulestore : ModuleStore) (course_id : string) :
  let items := get_items modulestore course_id in
  Forall (fun item => serializable item = true) items ->
  exists nodes relationships,
    serialize_course modulestore course_id = Return (nodes, relationships)
    /\ Forall2 node_of_item items nodes
    /\ node_id <$> nodes = seq 0 (length items)
    /\ relationships
       = items ≫= (fun item =>
           get_children item ≫= parent_of (node_for items nodes) item)
    /\ (forall loc, node_for items nodes loc = None <-> loc ∉ location <$> items)
    /\ (forall loc n, node_for items nodes loc = Some n ->
          exists i item, items !! i = Some item /\ nodes !! i = Some n
                         /\ location item = loc)
    /\ Forall (fun r => rel_type r = "PARENT_OF"
                        /\ start_node r ∈ nodes /\ end_node r ∈ nodes)
              relationships.
Proof.
  intros items Hall. unfold serialize_course. fold items.
  destruct (create_nodes_returns items [] ∅ Hall) as [[nodes l2n] Hcreate].
  rewrite Hcreate.
  apply create_nodes_Return in Hcreate as (new & Hnodes & Hnew & Hids & Hmap).
  simpl in Hnodes. subst new.
  assert (forall loc, l2n !! loc = node_for items nodes loc) as Hl2n.
  { intros loc. rewrite Hmap, lookup_empty.
    by destruct (node_for items nodes loc). }
  assert (length nodes = length items) as Hlen
    by (symmetry; by eapply Forall2_length).
  assert (items ≫= (fun item =>
            get_children item ≫= parent_of (fun loc => l2n !! loc) item)
          = items ≫= (fun item =>
              get_children item ≫= parent_of (node_for items nodes) item))
    as Hrels.
  { apply list_bind_ext; [|done]. intros item.
    apply list_bind_ext; [|done]. intros loc.
    unfold parent_of. by rewrite !Hl2n. }
  exists nodes, (create_relationships l2n items []). split_and!; try done.
  - by rewrite create_relationships_app.
  - intros loc. by apply node_for_None.
  - apply node_for_Some.
  - rewrite create_relationships_app. simpl. rewrite Hrels.
    apply Forall_forall. intros r (item & Hr & _)%list_elem_of_bind.
    apply list_elem_of_bind in Hr as (loc & Hr & _).
    unfold parent_of in Hr.
    destruct (node_for items nodes (location item)) as [p|] eqn:Hp;
      [|by apply elem_of_nil in Hr].
    destruct (node_for items nodes loc) as [c|] eqn:Hc;
      [|by apply elem_of_nil in Hr].
    apply list_elem_of_singleton in Hr as ->. simpl.
    apply node_for_Some in Hp as (i & ? & _ & Hi & _).
    apply node_for_Some in Hc as (j & ? & _ & Hj & _).
    split_and!; [done| |]; by eapply list_elem_of_lookup_2.
Qed.

Lemma serialize_course_spec_witness :
  exists nodes relationships,
    serialize_course plain_store "demo" = Return (nodes, relationships)
    /\ Forall2 node_of_item example_course nodes
    /\ node_id <$> nodes = seq 0 3
    /\ relationships
       = example_course ≫= (fun item =>
           get_children item ≫= parent_of (node_for example_course nodes) item)
    /\ (forall loc, node_for example_course nodes loc = None
                    <-> loc ∉ location <$> example_course)
    /\ (forall loc n, node_for example_course nodes loc = Some n ->
          exists i item, example_course !! i = Some item /\ nodes !! i = Some n
                         /\ location item = loc)
    /\ Forall (fun r => rel_type r = "PARENT_OF"
                        /\ start_node r ∈ nodes /\ end_node r ∈ nodes)
              relationships.
Proof.
  apply (serialize_course_spec plain_store "demo").
  repeat (apply Forall_cons_2; [vm_compute; reflexivity|]).
  apply Forall_nil_2.
Defined.

(** The example course gives three nodes and two relationships: the child
    that the modulestore does not return gives none. *)
Example serialize_course_example :
  match serialize_course plain_store "demo" with
  | Return (nodes, relationships) =>
      label <$> nodes = ["course"; "chapter"; "problem"]
      /\ (fun r => (node_id (start_node r), rel_type r, node_id (end_node r)))
           <$> relationships
         = [(0, "PARENT_OF", 1); (1, "PARENT_OF", 2)]
      /\ (fun n => properties n !! "tags") <$> nodes
         = [None; None; Some (VTuple [AUnicode "1"; AUnicode "True"])]
      /\ (fun n => properties n !! "checklists") <$> nodes = [None; None; None]
  | Raise _ => False
  end.
Proof. vm_compute. repeat split; reflexivity. Qed.


(** *** The transaction of a course *)

Lemma add_to_transaction_spec drv es : forall r,
  let out := add_to_transaction drv es r in
  graph (fst out) = graph r
  /\ ((snd out = Return tt
       /\ transaction (fst out) = transaction r ++ es
       /\ trace (fst out) = trace r ++ (Create <$> es))
      \/ (exists k e, snd out = Raise e /\ k < length es
                      /\ trace (fst out) = trace r ++ (Create <$> take (S k) es))).
Proof.
  induction es as [|e es IH]; intros r; simpl.
  - split; [done|]. left. by rewrite !app_nil_r.
  - unfold create. simpl.
    destruct (create_raises drv (transaction r) e); simpl.
    + split; [done|]. right. exists 0, (Exception "create").
      split_and!; [done|lia|]. by rewrite take_0.
    + match goal with |- context [add_to_transaction drv es ?r0] =>
        destruct (IH r0) as [Hg Hcases]; simpl in Hg, Hcases end.
      rewrite Hg. split; [done|].
      destruct Hcases as [(Hr & Htx & Htr)|(k & e' & Hr & Hk & Htr)].
      * left. rewrite Hr, Htx, Htr. by rewrite <-!app_assoc.
      * right. exists (S k), e'. rewrite Hr, Htr.
        split_and!; [done|lia|]. by rewrite <-app_assoc.
Qed.

(** The outcome of a round for a course that has been serialized. *)
Lemma handle_course_outcome (drv : Driver) (modulestore : ModuleStore)
    (course_id : string) (r : Run) (nodes : list Node)
    (relationships : list Relationship) :
  serialize_course modulestore course_id = Return (nodes, relationships) ->
  let es := entities nodes relationships in
  let out := handle_course drv modulestore course_id r in
  let opened :=
    trace r ++ [ClearRequestCache; SerializeCourse course_id; Begin] in
  snd out = Return tt
  /\ ((trace (fst out) = opened ++ (Create <$> es) ++ [Commit]
       /\ graph (fst out) = graph r ++ es)
      \/ (graph (fst out) = graph r
          /\ (trace (fst out) = opened ++ (Create <$> es) ++ [Commit; Rollback]
              \/ exists k, k < length es
                   /\ trace (fst out)
                      = opened ++ (Create <$> take (S k) es) ++ [Rollback]))).
Proof.
  intros Hser es out opened.
  assert (snd out = Return tt) as Hret.
  { subst out. unfold handle_course. rewrite Hser.
    by destruct (handle_try _ _ _ _) as [r' [|]]. }
  split; [done|].
  subst out. unfold handle_course. rewrite Hser. unfold handle_try.
  set (r0 := begin _).
  assert (trace r0 = opened /\ graph r0 = graph r /\ transaction r0 = [])
    as (Htr0 & Hg0 & Htx0).
  { subst r0 opened. simpl. by rewrite <-!app_assoc. }
  clearbody r0.
  pose proof (add_to_transaction_spec drv (ENode <$> nodes) r0) as [Hg1 H1].
  destruct (add_to_transaction drv (ENode <$> nodes) r0) as [r1 res1].
  simpl in Hg1, H1.
  destruct H1 as [(-> & Htx1 & Htr1)|(k & e & -> & Hk & Htr1)].
  2:{ simpl. right. split; [congruence|]. right. exists k.
      subst es. unfold entities. rewrite length_app. split; [lia|].
      rewrite Htr1, Htr0. rewrite take_app_le by lia.
      by rewrite <-!app_assoc. }
  pose proof (add_to_transaction_spec drv (ERelationship <$> relationships) r1)
    as [Hg2 H2].
  destruct (add_to_transaction drv (ERelationship <$> relationships) r1)
    as [r2 res2].
  simpl in Hg2, H2.
  destruct H2 as [(-> & Htx2 & Htr2)|(k & e & -> & Hk & Htr2)].
  2:{ simpl. right. split; [congruence|]. right.
      exists (length (ENode <$> nodes) + k).
      subst es. unfold entities. rewrite length_app. split; [lia|].
      replace (S (length (ENode <$> nodes) + k))
        with (length (ENode <$> nodes) + S k) by lia.
      rewrite take_app_add, fmap_app.
      rewrite Htr2, Htr1, Htr0. by rewrite <-!app_assoc. }
  assert (trace r2 = opened ++ (Create <$> es)) as Htr.
  { rewrite Htr2, Htr1, Htr0. subst es. unfold entities.
    by rewrite fmap_app, <-!app_assoc. }
  assert (transaction r2 = es) as Htx.
  { rewrite Htx2, Htx1, Htx0. done. }
  unfold commit. simpl.
  destruct (commit_raises drv (graph r2) (transaction r2)); simpl.
  - right. split; [congruence|]. left. rewrite Htr. by rewrite <-!app_assoc.
  - left. rewrite Htr, Htx, <-!app_assoc. split; [done|]. congruence.
Qed.

(** What [add_to_transaction] does when the driver takes every entity, and
    when it refuses the entity at position [k] after it has taken those
    before. *)
Lemma add_to_transaction_accepted drv es : forall r,
  (forall k e, es !! k = Some e ->
     create_raises drv (transaction r ++ take k es) e = false) ->
  add_to_transaction drv es r
  = ({| graph := graph r; transaction := transaction r ++ es;
        trace := trace r ++ (Create <$> es) |}, Return tt).
Proof.
  induction es as [|e es IH]; intros r Hok; simpl.
  - rewrite !app_nil_r. by destruct r.
  - unfold create. simpl.
    pose proof (Hok 0 e eq_refl) as H0. simpl in H0.
    rewrite app_nil_r in H0. rewrite H0.
    rewrite IH; simpl.
    + by rewrite <-!app_assoc.
    + intros k e' Hk. rewrite <-app_assoc. by apply (Hok (S k)).
Qed.

Lemma add_to_transaction_refused drv es : forall r k e,
  es !! k = Some e ->
  create_raises drv (transaction r ++ take k es) e = true ->
  (forall i e', i < k -> es !! i = Some e' ->
     create_raises drv (transaction r ++ take i es) e' = false) ->
  add_to_transaction drv es r
  = ({| graph := graph r; transaction := transaction r ++ take k es;
        trace := trace r ++ (Create <$> take (S k) es) |},
     Raise (Exception "create")).
Proof.
  induction es as [|e0 es IH]; intros r k e Hk Href Hbefore; [done|].
  simpl. unfold create. simpl. destruct k as [|k]; simpl in *.
  - injection Hk as ->. rewrite app_nil_r in Href. rewrite Href.
    by rewrite ?app_nil_r.
  - pose proof (Hbefore 0 e0 ltac:(lia) eq_refl) as H0. simpl in H0.
    rewrite app_nil_r in H0. rewrite H0.
    rewrite (IH _ k e Hk); simpl.
    + by rewrite <-!app_assoc.
    + by rewrite <-app_assoc.
    + intros i e' Hi Hi'. rewrite <-app_assoc.
      apply (Hbefore (S i)); [lia|done].
Qed.

(** The [try] block in a transaction that has just been opened. *)
Lemma handle_try_accepted drv nodes relationships r0 :
  transaction r0 = [] ->
  let es := entities nodes relationships in
  (forall k e, es !! k = Some e -> create_raises drv (take k es) e = false) ->
  handle_try drv nodes relationships r0
  = commit drv {| graph := graph r0; transaction := es;
                  trace := trace r0 ++ (Create <$> es) |}.
Proof.
  intros Htx es Hok. unfold handle_try.
  rewrite add_to_transaction_accepted.
  2:{ intros k e Hk. rewrite Htx. simpl.
      rewrite <-(take_app_le _ (ERelationship <$> relationships)).
      - apply Hok. by apply lookup_app_l_Some.
      - apply lookup_lt_Some in Hk. lia. }
  rewrite add_to_transaction_accepted; simpl.
  - rewrite Htx. simpl. subst es. unfold entities.
    by rewrite fmap_app, <-!app_assoc.
  - intros k e Hk. rewrite Htx. simpl.
    rewrite <-take_app_add. apply Hok.
    subst es. unfold entities. rewrite lookup_app_r by lia.
    by replace (length (ENode <$> nodes) + k - length (ENode <$> nodes))
      with k by lia.
Qed.

Lemma handle_try_refused drv nodes relationships r0 k e :
  transaction r0 = [] ->
  let es := entities nodes relationships in
  es !! k = Some e ->
  create_raises drv (take k es) e = true ->
  (forall i e', i < k -> es !! i = Some e' ->
     create_raises drv (take i es) e' = false) ->
  handle_try drv nodes relationships r0
  = ({| graph := graph r0; transaction := take k es;
        trace := trace r0 ++ (Create <$> take (S k) es) |},
     Raise (Exception "create")).
Proof.
  intros Htx es Hk Href Hbefore. unfold handle_try.
  destruct (decide (k < length (ENode <$> nodes))) as [Hlt|Hge].
  - assert (forall i, i <= length (ENode <$> nodes) ->
              take i es = take i (ENode <$> nodes)) as Htake.
    { intros i Hi. subst es. unfold entities. by rewrite take_app_le. }
    rewrite (add_to_transaction_refused drv _ r0 k e).
    + rewrite Htx. simpl. by rewrite !Htake by lia.
    + subst es. unfold entities in Hk. by rewrite lookup_app_l in Hk.
    + rewrite Htx. simpl. by rewrite <-Htake by lia.
    + intros i e' Hi Hi'. rewrite Htx. simpl. rewrite <-Htake by lia.
      apply Hbefore; [done|]. by apply lookup_app_l_Some.
  - set (n := length (ENode <$> nodes)) in *.
    assert (forall i, take (n + i) es
                      = (ENode <$> nodes) ++ take i (ERelationship <$> relationships))
      as Htake.
    { intros i. subst es n. unfold entities. by rewrite take_app_add. }
    assert (forall i, es !! (n + i) = (ERelationship <$> relationships) !! i)
      as Hlook.
    { intros i. subst es n. unfold entities. rewrite lookup_app_r by lia.
      f_equal. lia. }
    rewrite add_to_transaction_accepted.
    2:{ intros i e' Hi. rewrite Htx. simpl.
        rewrite <-(take_app_le _ (ERelationship <$> relationships)).
        - apply Hbefore.
          + apply lookup_lt_Some in Hi. fold n in Hi. lia.
          + by apply lookup_app_l_Some.
        - apply lookup_lt_Some in Hi. lia. }
    replace k with (n + (k - n)) in Hk, Href |- * by lia.
    rewrite Hlook in Hk. rewrite Htake in Href.
    rewrite (add_to_transaction_refused drv _ _ (k - n) e); simpl.
    + rewrite Htx. simpl. rewrite Htake.
      replace (S (n + (k - n))) with (n + S (k - n)) by lia.
      rewrite Htake, fmap_app. by rewrite <-!app_assoc.
    + done.
    + by rewrite Htx.
    + intros i e' Hi Hi'. rewrite Htx. simpl. rewrite <-Htake.
      apply Hbefore; [lia|]. by rewrite Hlook.
Qed.

(** C2. When a course has been serialized, [handle] opens one transaction
    for it and creates its nodes and then its relationships in that
    transaction. When the driver takes every creation and the commit, the
    entities are added to the database. When the commit raises, or when
    the driver refuses an entity after it has taken those before, the
    transaction is rolled back right after the failed call and the
    database is as before the course. In each case the round returns and
    the loop goes on with the next course. *)
Theorem handle_course_transaction (drv : Driver) (modulestore : ModuleStore)
    (course_id : string) (r : Run) (nodes : list Node)
    (relationships : list Relationship) :
  serialize_course modulestore course_id = Return (nodes, relationships) ->
  let es := entities nodes relationships in
  let out := handle_course drv modulestore course_id r in
  let opened :=
    trace r ++ [ClearRequestCache; SerializeCourse course_id; Begin] in
  let accepted :=
    forall k e, es !! k = Some e -> create_raises drv (take k es) e = false in
  snd out = Return tt
  /\ ((trace (fst out) = opened ++ (Create <$> es) ++ [Commit]
       /\ graph (fst out) = graph r ++ es)
      \/ (graph (fst out) = graph r
          /\ (trace (fst out) = opened ++ (Create <$> es) ++ [Commit; Rollback]
              \/ exists k, k < length es
                   /\ trace (fst out)
                      = opened ++ (Create <$> take (S k) es) ++ [Rollback])))
  /\ (accepted -> commit_raises drv (graph r) es = false ->
      trace (fst out) = opened ++ (Create <$> es) ++ [Commit]
      /\ graph (fst out) = graph r ++ es
      /\ transaction (fst out) = [])
  /\ (accepted -> commit_raises drv (graph r) es = true ->
      trace (fst out) = opened ++ (Create <$> es) ++ [Commit; Rollback]
      /\ graph (fst out) = graph r
      /\ transaction (fst out) = [])
  /\ (forall k e,
        es !! k = Some e -> create_raises drv (take k es) e = true ->
        (forall i e', i < k -> es !! i = Some e' ->
           create_raises drv (take i es) e' = false) ->
        trace (fst out) = opened ++ (Create <$> take (S k) es) ++ [Rollback]
        /\ graph (fst out) = graph r
        /\ transaction (fst out) = [])
  /\ (forall rest,
        handle_loop drv modulestore (course_id :: rest) r
        = handle_loop drv modulestore rest (fst out))
  /\ (forall rest,
        Forall (fun c => returns (serialize_course modulestore c) = true) rest ->
        snd (handle_loop drv modulestore (course_id :: rest) r) = Return tt).
Proof.
  intros Hser es out opened accepted.
  destruct (handle_course_outcome drv modulestore course_id r nodes
              relationships Hser) as [Hret Hcases].
  fold out in Hret, Hcases. split; [done|]. split; [done|].
  assert (forall rest,
            handle_loop drv modulestore (course_id :: rest) r
            = handle_loop drv modulestore rest (fst out)) as Hloop.
  { intros rest. simpl. fold out. destruct out as [r' res]. simpl in Hret.
    by rewrite Hret. }
  set (r0 := begin (emit (SerializeCourse course_id)
                      (emit ClearRequestCache r))).
  assert (out = match handle_try drv nodes relationships r0 with
                | (r', Return _) => (r', Return tt)
                | (r', Raise _) => (rollback r', Return tt)
                end) as Hout.
  { subst out. unfold handle_course. by rewrite Hser. }
  assert (trace r0 = opened /\ graph r0 = graph r /\ transaction r0 = [])
    as (Htr0 & Hg0 & Htx0)
    by (subst r0 opened; simpl; by rewrite <-!app_assoc).
  clearbody r0.
  split_and!.
  - intros Hok Hcommit. rewrite Hout.
    rewrite (handle_try_accepted drv nodes relationships r0 Htx0 Hok).
    unfold commit. simpl. fold es. rewrite Hg0, Hcommit. simpl.
    rewrite Htr0. by rewrite <-!app_assoc.
  - intros Hok Hcommit. rewrite Hout.
    rewrite (handle_try_accepted drv nodes relationships r0 Htx0 Hok).
    unfold commit. simpl. fold es. rewrite Hg0, Hcommit. simpl.
    rewrite Htr0. by rewrite <-!app_assoc.
  - intros k e Hk Href Hbefore. rewrite Hout.
    rewrite (handle_try_refused drv nodes relationships r0 k e Htx0
               Hk Href Hbefore).
    simpl. fold es. rewrite Htr0, Hg0. by rewrite <-!app_assoc.
  - done.
  - intros rest Hall. rewrite Hloop.
    clear -Hall. revert Hall. generalize (fst out).
    induction rest as [|c rest IH]; intros r1 Hall; simpl; [done|].
    apply Forall_cons in Hall as [Hc Hall].
    destruct (serialize_course modulestore c) as [[ns rs]|] eqn:Hs; [|done].
    destruct (handle_course_outcome drv modulestore c r1 ns rs Hs) as [Hr _].
    destruct (handle_course drv modulestore c r1) as [r' res]. simpl in Hr.
    subst res. by apply IH.
Qed.

Lemma handle_course_transaction_witness :
  let r := {| graph := []; transaction := []; trace := [DeleteAll] |} in
  graph (fst (handle_course sound_driver plain_store "demo" r))
  = course_entities plain_store "demo"
  /\ graph (fst (handle_course no_commit plain_store "demo" r)) = [].
Proof.
  destruct (serialize_course plain_store "demo") as [[nodes rels]|] eqn:Hser;
    [|by vm_compute in Hser].
  pose proof (handle_course_transaction sound_driver plain_store "demo"
    {| graph := []; transaction := []; trace := [DeleteAll] |} _ _ Hser)
    as (_ & _ & Hsound & _).
  pose proof (handle_course_transaction no_commit plain_store "demo"
    {| graph := []; transaction := []; trace := [DeleteAll] |} _ _ Hser)
    as (_ & _ & _ & Hfail & _).
  split.
  - destruct Hsound as (_ & -> & _); [done|done|].
    unfold course_entities. by rewrite Hser.
  - by destruct Hfail as (_ & -> & _).
Defined.

(** The calls of a round in which the relationships are refused, and of
    one in which the commit fails: the database stays empty. *)
Example handle_course_example :
  let r := {| graph := []; transaction := []; trace := [] |} in
  let shape := fun ev =>
    match ev with
    | Create (ENode _) => "node" | Create (ERelationship _) => "relationship"
    | Begin => "begin" | Commit => "commit" | Rollback => "rollback"
    | DeleteAll => "delete" | ClearRequestCache => "clear"
    | SerializeCourse c => c
    end in
  let refused := fst (handle_course no_relationships plain_store "demo" r) in
  let failed := fst (handle_course no_commit plain_store "demo" r) in
  let done := fst (handle_course sound_driver plain_store "demo" r) in
  shape <$> trace refused
  = ["clear"; "demo"; "begin"; "node"; "node"; "node"; "relationship";
     "rollback"]
  /\ graph refused = []
  /\ shape <$> trace failed
     = ["clear"; "demo"; "begin"; "node"; "node"; "node"; "relationship";
        "relationship"; "commit"; "rollback"]
  /\ graph failed = []
  /\ length (graph done) = 5.
Proof. vm_compute. repeat split; reflexivity. Qed.


(** *** The order of the calls *)

Lemma extends_refl r : extends r r.
Proof. exists []. split; [by rewrite app_nil_r|apply not_elem_of_nil]. Qed.

Lemma extends_trans r1 r2 r3 : extends r1 r2 -> extends r2 r3 -> extends r1 r3.
Proof.
  intros (evs1 & H1 & Hn1) (evs2 & H2 & Hn2). exists (evs1 ++ evs2).
  split; [by rewrite H2, H1, <-app_assoc|].
  rewrite elem_of_app. tauto.
Qed.

Lemma extends_emit ev r : ev <> DeleteAll -> extends r (emit ev r).
Proof.
  intros Hev. exists [ev]. split; [done|].
  rewrite list_elem_of_singleton. congruence.
Qed.

Lemma extends_same_trace r r' : trace r' = trace r -> extends r r'.
Proof.
  intros H. exists []. split; [by rewrite app_nil_r|apply not_elem_of_nil].
Qed.

Lemma create_extends drv e r : extends r (fst (create drv e r)).
Proof.
  unfold create. destruct (create_raises _ _ _); simpl.
  - by apply extends_emit.
  - eapply extends_trans; [by apply (extends_emit (Create e))|].
    by apply extends_same_trace.
Qed.

Lemma add_to_transaction_extends drv es : forall r,
  extends r (fst (add_to_transaction drv es r)).
Proof.
  induction es as [|e es IH]; intros r; simpl; [apply extends_refl|].
  pose proof (create_extends drv e r) as Hc.
  destruct (create drv e r) as [r' [[]|]]; simpl in *; [|done].
  by eapply extends_trans.
Qed.

Lemma commit_extends drv r : extends r (fst (commit drv r)).
Proof.
  unfold commit. destruct (commit_raises _ _ _); simpl.
  - by apply extends_emit.
  - eapply extends_trans; [by apply (extends_emit Commit)|].
    by apply extends_same_trace.
Qed.

Lemma handle_try_extends drv nodes relationships r :
  extends r (fst (handle_try drv nodes relationships r)).
Proof.
  unfold handle_try.
  pose proof (add_to_transaction_extends drv (ENode <$> nodes) r) as H1.
  destruct (add_to_transaction drv (ENode <$> nodes) r) as [r1 [[]|]];
    simpl in *; [|done].
  pose proof (add_to_transaction_extends drv (ERelationship <$> relationships)
                r1) as H2.
  destruct (add_to_transaction drv (ERelationship <$> relationships) r1)
    as [r2 [[]|]]; simpl in *; [|by eapply extends_trans].
  eapply extends_trans; [done|]. eapply extends_trans; [done|].
  apply commit_extends.
Qed.

Lemma handle_course_extends drv modulestore course_id r :
  extends r (fst (handle_course drv modulestore course_id r)).
Proof.
  unfold handle_course.
  eapply extends_trans; [by apply (extends_emit ClearRequestCache)|].
  eapply extends_trans; [by apply (extends_emit (SerializeCourse course_id))|].
  destruct (serialize_course _ _) as [[nodes relationships]|]; simpl;
    [|apply extends_refl].
  set (r0 := emit _ (emit _ r)).
  eapply extends_trans.
  { eapply extends_trans; [|by apply (extends_emit Begin)].
    by apply extends_same_trace. }
  fold (begin r0).
  pose proof (handle_try_extends drv nodes relationships (begin r0)) as Ht.
  destruct (handle_try _ _ _ _) as [r' [[]|]]; simpl in *; [done|].
  eapply extends_trans; [done|]. unfold rollback.
  eapply extends_trans; [|by apply (extends_emit Rollback)].
  by apply extends_same_trace.
Qed.

Lemma handle_loop_extends drv modulestore all_courses : forall r,
  extends r (fst (handle_loop drv modulestore all_courses r)).
Proof.
  induction all_courses as [|c rest IH]; intros r; simpl; [apply extends_refl|].
  pose proof (handle_course_extends drv modulestore c r) as Hc.
  destruct (handle_course _ _ _ _) as [r' [[]|]]; simpl in *; [|done].
  by eapply extends_trans.
Qed.

(** C8. [handle] calls [delete_all] once, as the first thing it does to
    the database: every serialization of a course and every creation of
    an entity comes later in the trace, and what the database held before
    has no part in the run. *)
Theorem handle_deletes_first (drv : Driver) (modulestore : ModuleStore)
    (existing : list Entity) :
  let out := handle drv modulestore existing in
  let calls := trace (fst out) in
  calls !! 0 = Some DeleteAll
  /\ (forall i, calls !! i = Some DeleteAll -> i = 0)
  /\ (forall i e, calls !! i = Some (Create e) -> 0 < i)
  /\ (forall i c, calls !! i = Some (SerializeCourse c) -> 0 < i)
  /\ out = handle drv modulestore [].
Proof.
  intros out calls.
  assert (exists rest, calls = DeleteAll :: rest /\ DeleteAll ∉ rest)
    as (rest & Hcalls & Hrest).
  { subst calls out. unfold handle. set (r0 := delete_all _).
    destruct (handle_loop_extends drv modulestore
                (get_course_summaries modulestore) r0) as (rest & Htr & Hrest).
    by exists rest. }
  rewrite Hcalls. split_and!; try done.
  - intros [|i] Hi; [done|]. simpl in Hi.
    destruct Hrest. by eapply list_elem_of_lookup_2.
  - intros [|i] e Hi; [done|lia].
  - intros [|i] c Hi; [done|lia].
Qed.

(** The trace of a run over the example store: the second course cannot
    be serialized, and the command stops there. *)
Example handle_example :
  let out := handle no_relationships example_store [] in
  let shape := fun ev =>
    match ev with
    | Create (ENode _) => "node" | Create (ERelationship _) => "relationship"
    | Begin => "begin" | Commit => "commit" | Rollback => "rollback"
    | DeleteAll => "delete" | ClearRequestCache => "clear"
    | SerializeCourse c => c
    end in
  shape <$> trace (fst out)
  = ["delete"; "clear"; "demo"; "begin"; "node"; "node"; "node";
     "relationship"; "rollback"; "clear"; "latin"]
  /\ snd out = Raise UnicodeDecodeError.
Proof. vm_compute. split; reflexivity. Qed.

(** When every course can be serialized, [handle] returns after it has
    gone through all of them, whatever the driver refuses. *)
Lemma handle_loop_all_courses drv modulestore all_courses : forall r,
  Forall (fun c => returns (serialize_course modulestore c) = true) all_courses ->
  let out := handle_loop drv modulestore all_courses r in
  snd out = Return tt
  /\ serialized_courses (trace (fst out))
     = serialized_courses (trace r) ++ all_courses.
Proof.
  induction all_courses as [|c rest IH]; intros r Hall; simpl.
  - split; [done|]. by rewrite app_nil_r.
  - apply Forall_cons in Hall as [Hc Hall].
    destruct (serialize_course modulestore c) as [[nodes rels]|] eqn:Hser;
      [|done].
    destruct (handle_course_outcome drv modulestore c r nodes rels Hser)
      as (Hret & Hcases).
    destruct (handle_course drv modulestore c r) as [r' res]. simpl in *.
    subst res. destruct (IH r' Hall) as [Hr Hs]. split; [done|].
    rewrite Hs. clear Hs Hr IH.
    assert (serialized_courses (trace r') = serialized_courses (trace r) ++ [c])
      as ->; [|by rewrite <-app_assoc].
    unfold serialized_courses in *.
    assert (forall es : list Entity,
              (Create <$> es) ≫= (fun ev =>
                 match ev with SerializeCourse c => [c] | _ => [] end)
              = @nil string) as Hcreate.
    { induction es as [|e es IHes]; [done|]. by rewrite fmap_cons, bind_cons. }
    destruct Hcases as [[-> _]|[_ [->|(k & _ & ->)]]];
      rewrite !bind_app, Hcreate; simpl; by rewrite !app_nil_r.
Qed.

End Neo4jSpec.

(** ** More on the randomize module *)
Module RandomizeExtra.
Import OrderedDict OrderedDictFacts Randomize RandomizeSpec.

Lemma set_choice_same c self : same_block self (set_choice c self).
Proof. by repeat split. Qed.

Lemma same_block_refl self : same_block self self.
Proof. by repeat split. Qed.

Lemma same_block_trans s1 s2 s3 :
  same_block s1 s2 -> same_block s2 s3 -> same_block s1 s3.
Proof.
  unfold same_block. intros (?&?&?&?&?&?) (?&?&?&?&?&?).
  split_and!; congruence.
Qed.

(** The dictionary of all children is that of the block. *)
Lemma get_choices_all_same self self' :
  same_block self self' ->
  get_choices self' false None = get_choices self false None.
Proof.
  intros (_&_&_&_&Hc&_). by rewrite !get_choices_all, Hc.
Qed.

(** The first step gives the instance back as it is. *)
Lemma pick_choice_reset_id self no_repeats suspended :
  pick_choice_reset suspended (get_choices self no_repeats suspended)
                    (get_choices self false None) self
  = Return self.
Proof.
  destruct (choice self) as [c|] eqn:Hc.
  - by apply (pick_choice_reset_keeps _ _ _ c).
  - unfold pick_choice_reset. by rewrite Hc.
Qed.

Lemma random_choice_elem rnd (keys : list string) :
  0 < length keys -> random_choice rnd keys ∈ keys.
Proof.
  intros Hn. unfold random_choice.
  destruct (lookup_lt_is_Some_2 keys (rnd mod length keys)) as [k Hk].
  { apply Nat.mod_upper_bound. lia. }
  rewrite Hk. simpl. by eapply list_elem_of_lookup_2.
Qed.

(** The second step returns, with the choice it has made. *)
Lemma pick_choice_select_cases use_randrange rnd choices self :
  exists c',
    pick_choice_select use_randrange rnd choices self
    = Return (set_choice c' self)
    /\ (forall c, choice self = Some c -> c' = Some c)
    /\ (choice self = None -> 0 < len choices ->
        exists k, c' = Some k /\ k ∈ keys choices)
    /\ (choice self = None -> len choices = 0 -> c' = last (history self)).
Proof.
  unfold pick_choice_select. destruct (choice self) as [c|] eqn:Hc.
  { exists (Some c). split_and!; try done.
    f_equal. destruct self; simpl in *. by subst. }
  case_bool_decide as Hn.
  - assert (exists k, k ∈ keys choices
              /\ match seed (system self), use_randrange with
                 | Some s, false =>
                     match py_index (keys choices)
                             (s mod Z.of_nat (len choices)) with
                     | Return c => Return (set_choice (Some c) self)
                     | Raise e => Raise e
                     end
                 | _, _ =>
                     Return (set_choice (Some (random_choice rnd (keys choices)))
                                        self)
                 end = Return (set_choice (Some k) self)) as (k & Hk & ->).
    { assert (0 < length (keys choices)) as Hlen
        by (unfold keys; by rewrite length_fmap).
      destruct (seed (system self)) as [s|], use_randrange;
        try (eexists; split; [by apply (random_choice_elem rnd)|done]).
      assert (0 <= s mod Z.of_nat (len choices) < Z.of_nat (len choices))%Z
        by (apply Z.mod_pos_bound; lia).
      rewrite py_index_nonneg by lia.
      destruct (lookup_lt_is_Some_2 (keys choices)
                  (Z.to_nat (s mod Z.of_nat (len choices)))) as [k Hk].
      { unfold keys. rewrite length_fmap. fold (len choices). lia. }
      rewrite Hk. simpl. exists k. split; [|done].
      by eapply list_elem_of_lookup_2. }
    exists (Some k).
    split_and!; first [done | lia | (intros _ _; by exists k)].
  - assert (len choices = 0) as Hz by lia.
    exists (last (history self)). split_and!; try done; try lia.
    destruct (last (history self)); [done|].
    f_equal. destruct self; simpl in *. by subst.
Qed.

Lemma get_children_same self : same_block self (get_children self).1.
Proof.
  unfold get_children. destruct (_loaded_children self); by repeat split.
Qed.

Lemma pick_choice_load_same all_choices self :
  same_block self (pick_choice_load all_choices self).1.
Proof.
  unfold pick_choice_load. destruct (choice self) as [c|]; [|by repeat split].
  pose proof (get_children_same
                (set_child_descriptor (get all_choices c) self)) as Hg.
  destruct (get_children _) as [self' ch]. simpl in Hg.
  assert (same_block self self') as Hs by (by destruct Hg as (?&?&?&?&?&?)).
  destruct ch as [|m [|m' ch]]; simpl;
    first [done | (eapply same_block_trans; [done|]; by repeat split)].
Qed.

(** [pick_choice] is the third step on the instance with the choice of the
    second. *)
Lemma pick_choice_steps use_randrange no_repeats suspended rnd self :
  exists c',
    pick_choice use_randrange no_repeats suspended rnd self
    = pick_choice_load (get_choices self false None) (set_choice c' self)
    /\ (forall c, choice self = Some c -> c' = Some c)
    /\ (choice self = None -> 0 < len (get_choices self no_repeats suspended) ->
        exists k, c' = Some k
                  /\ k ∈ keys (get_choices self no_repeats suspended))
    /\ (choice self = None -> len (get_choices self no_repeats suspended) = 0 ->
        c' = last (history self)).
Proof.
  destruct (pick_choice_select_cases use_randrange rnd
              (get_choices self no_repeats suspended) self)
    as (c' & Hsel & H1 & H2 & H3).
  exists c'. split_and!; try done.
  unfold pick_choice. by rewrite pick_choice_reset_id, Hsel.
Qed.

Lemma pick_choice_same use_randrange no_repeats suspended rnd self :
  same_block self (pick_choice use_randrange no_repeats suspended rnd self).1.
Proof.
  destruct (pick_choice_steps use_randrange no_repeats suspended rnd self)
    as (c' & -> & _).
  eapply same_block_trans; [apply (set_choice_same c')|].
  apply pick_choice_load_same.
Qed.

(** X1. The step of [pick_choice] that would drop a stored choice changes
    nothing, for any instance and any arguments, [suspended=None]
    included; and the only exception that [pick_choice] raises is the one
    about the number of children. *)
Theorem pick_choice_never_resets (self : RandomizeModule)
    (use_randrange no_repeats : bool) (suspended : option (list string))
    (rnd : nat) :
  pick_choice_reset suspended (get_choices self no_repeats suspended)
                    (get_choices self false None) self
  = Return self
  /\ forall e,
       (pick_choice use_randrange no_repeats suspended rnd self).2 = Raise e ->
       e = Exception "self.get_children() returned elements".
Proof.
  split; [apply pick_choice_reset_id|]. intros e.
  destruct (pick_choice_steps use_randrange no_repeats suspended rnd self)
    as (c' & -> & _).
  unfold pick_choice_load. destruct (choice (set_choice c' self)); [|done].
  destruct (get_children _) as [self' ch].
  destruct ch as [|m [|m' ch]]; simpl; congruence.
Qed.

(** X2. When no choice is stored and some choice is offered, the choice
    that [pick_choice] stores, by the seed or at random, is a key of the
    filtered dictionary: the child under that key is a child of the block
    whose name is not suspended and, with [no_repeats], whose url is not
    in the history. *)
Theorem pick_choice_picks_offered (self : RandomizeModule)
    (use_randrange no_repeats : bool) (suspended : option (list string))
    (rnd : nat) :
  choice self = None ->
  0 < len (get_choices self no_repeats suspended) ->
  exists k d,
    choice (pick_choice use_randrange no_repeats suspended rnd self).1 = Some k
    /\ get (get_choices self no_repeats suspended) k = Some d
    /\ d ∈ children self
    /\ url (location d) = k
    /\ (forall sus, suspended = Some sus -> name (location d) ∉ sus)
    /\ (no_repeats = true -> k ∉ history self).
Proof.
  intros Hnone Hn.
  destruct (pick_choice_steps use_randrange no_repeats suspended rnd self)
    as (c' & Hpick & _ & Hk & _).
  destruct (Hk Hnone Hn) as (k & -> & Hin).
  apply get_is_Some in Hin as [d Hd].
  pose proof (get_choices_get _ _ _ _ _ Hd) as (Hurl & Hdin & Hoff).
  apply offered_true in Hoff as [Hh Hs].
  exists k, d. split_and!; try done.
  - by rewrite Hpick, pick_choice_load_choice.
  - intros ->. rewrite <-Hurl. by apply Hh.
Qed.

Lemma pick_choice_picks_offered_witness :
  let self := example_module false None None
                [url (location (problem "problem1"))] ["problem2"]
                three_problems in
  exists k d,
    choice (pick_choice true true (Some ["problem2"]) 5 self).1 = Some k
    /\ get (get_choices self true (Some ["problem2"])) k = Some d
    /\ d ∈ children self
    /\ url (location d) = k
    /\ (forall sus, Some ["problem2"] = Some sus -> name (location d) ∉ sus)
    /\ (true = true -> k ∉ history self).
Proof.
  apply (pick_choice_picks_offered
           (example_module false None None
              [url (location (problem "problem1"))] ["problem2"]
              three_problems) true true (Some ["problem2"]) 5).
  - reflexivity.
  - vm_compute. lia.
Defined.


(** The outcome of [pick_choice] on an instance that has loaded no child
    yet. *)
Lemma pick_choice_fresh use_randrange no_repeats suspended rnd self :
  _loaded_children self = None ->
  let out := pick_choice use_randrange no_repeats suspended rnd self in
  match choice out.1 with
  | None =>
      out.2 = Return tt /\ child_descriptor out.1 = None /\ child out.1 = None
  | Some c =>
      child_descriptor out.1 = get (get_choices self false None) c
      /\ match module_of self c with
         | Some m => out.2 = Return tt /\ child out.1 = Some m
         | None =>
             out.2 = Raise (Exception "self.get_children() returned elements")
             /\ child out.1 = child self
         end
  end.
Proof.
  intros Hfresh out. subst out.
  destruct (pick_choice_steps use_randrange no_repeats suspended rnd self)
    as (c' & -> & _).
  rewrite pick_choice_load_choice. simpl.
  unfold pick_choice_load, get_children, module_of. simpl. rewrite Hfresh.
  destruct c' as [c|]; simpl; [|done].
  unfold get_child_descriptors. simpl.
  destruct (get (get_choices self false None) c) as [d|]; simpl; [|done].
  by destruct (get_module (system self) d).
Qed.

(** X3. [__init__] on a descriptor with xml attributes builds an instance
    whose choice decides its outcome: without a choice it returns and no
    child is set; with a choice it returns exactly when the choice is the
    url of a child whose module the runtime gives, that module is then
    the child and [get_child_descriptors] is its descriptor; otherwise it
    raises the exception about the number of children. *)
Theorem init_outcome (stored_choice : option string)
    (stored_history stored_suspended : list string)
    (xml_attributes : gmap string string)
    (descriptor_children : list Descriptor) (sys : System) (rnd : nat) :
  xml_attributes <> ∅ ->
  let out := __init__ stored_choice stored_history stored_suspended
               xml_attributes descriptor_children sys rnd in
  exists self,
    out.1 = Some self
    /\ match choice self with
       | None =>
           out.2 = Return tt /\ child self = None
           /\ get_child_descriptors self = []
       | Some c =>
           match module_of self c with
           | Some m =>
               out.2 = Return tt /\ child self = Some m
               /\ exists d, get_child_descriptors self = [d]
                            /\ url (location d) = c
                            /\ d ∈ descriptor_children
                            /\ get_module sys d = Some m
           | None =>
               out.2 = Raise (Exception "self.get_children() returned elements")
               /\ child self = None
           end
       end.
Proof.
  intros Hxml out. subst out. unfold __init__.
  rewrite bool_decide_eq_false_2 by done.
  set (self0 := {| choice := stored_choice; history := stored_history;
                   suspended := stored_suspended;
                   use_randrange := _; no_repeats := _;
                   children := descriptor_children;
                   child_descriptor := None; child := None;
                   _loaded_children := None; system := sys |}).
  pose proof (pick_choice_fresh (use_randrange self0) (no_repeats self0)
                (Some (suspended self0)) rnd self0 eq_refl) as Hout.
  pose proof (pick_choice_same (use_randrange self0) (no_repeats self0)
                (Some (suspended self0)) rnd self0) as Hsame.
  simpl in Hout.
  destruct (pick_choice _ _ _ _ self0) as [self r]. simpl in *.
  exists self. split; [done|].
  assert (forall c, module_of self c = module_of self0 c) as Hmod.
  { intros c. unfold module_of. rewrite (get_choices_all_same self0 self Hsame).
    by destruct Hsame as (_&_&_&_&_&->). }
  destruct (choice self) as [c|].
  - rewrite Hmod. destruct Hout as [Hd Hout].
    unfold module_of in *.
    destruct (get (get_choices self0 false None) c) as [d|] eqn:Hget; simpl in *.
    + destruct (get_module sys d) as [m|] eqn:Hm; [|done].
      destruct Hout as [-> ->]. split_and!; try done.
      exists d. unfold get_child_descriptors. rewrite Hd.
      apply get_choices_get in Hget as (? & ? & _). done.
    + done.
  - destruct Hout as (-> & Hd & ->). unfold get_child_descriptors.
    by rewrite Hd.
Qed.

Lemma init_outcome_witness :
  exists self,
    (__init__ None [] [] {["no_repeats" := "True"]} three_problems
              (example_system false (Some 7%Z)) 0).1 = Some self
    /\ match choice self with
       | None =>
           (__init__ None [] [] {["no_repeats" := "True"]} three_problems
                     (example_system false (Some 7%Z)) 0).2 = Return tt
           /\ child self = None /\ get_child_descriptors self = []
       | Some c =>
           match module_of self c with
           | Some m =>
               (__init__ None [] [] {["no_repeats" := "True"]} three_problems
                         (example_system false (Some 7%Z)) 0).2 = Return tt
               /\ child self = Some m
               /\ exists d, get_child_descriptors self = [d]
                            /\ url (location d) = c
                            /\ d ∈ three_problems
                            /\ get_module (example_system false (Some 7%Z)) d
                               = Some m
           | None =>
               (__init__ None [] [] {["no_repeats" := "True"]} three_problems
                         (example_system false (Some 7%Z)) 0).2
               = Raise (Exception "self.get_children() returned elements")
               /\ child self = None
           end
       end.
Proof.
  apply (init_outcome None [] [] {["no_repeats" := "True"]} three_problems
           (example_system false (Some 7%Z)) 0).
  intros H. apply (f_equal (fun m => m !! "no_repeats")) in H.
  vm_compute in H. discriminate H.
Defined.

(** X4. [__init__] raises [AttributeError] and builds nothing when the
    descriptor has no xml attribute; otherwise the instance has the
    stored history and suspended list and the children of the descriptor,
    its flags are the attributes compared with [true] without regard to
    case, and a stored choice is the choice of the instance, whether
    [__init__] returns or raises. *)
Theorem init_keeps_state (stored_choice : option string)
    (stored_history stored_suspended : list string)
    (xml_attributes : gmap string string)
    (descriptor_children : list Descriptor) (sys : System) (rnd : nat) :
  let out := __init__ stored_choice stored_history stored_suspended
               xml_attributes descriptor_children sys rnd in
  (xml_attributes = ∅ -> out = (None, Raise AttributeError))
  /\ (xml_attributes <> ∅ ->
      exists self,
        out.1 = Some self
        /\ history self = stored_history
        /\ suspended self = stored_suspended
        /\ children self = descriptor_children
        /\ system self = sys
        /\ (use_randrange self = true
            <-> lower (default "" (xml_attributes !! "use_randrange")) = "true")
        /\ (no_repeats self = true
            <-> lower (default "" (xml_attributes !! "no_repeats")) = "true")
        /\ (forall c, stored_choice = Some c -> choice self = Some c)).
Proof.
  intros out. subst out. unfold __init__. split.
  - intros ->. by rewrite bool_decide_eq_true_2.
  - intros Hxml. rewrite bool_decide_eq_false_2 by done.
    set (self0 := {| choice := stored_choice; history := stored_history;
                     suspended := stored_suspended;
                     use_randrange := _; no_repeats := _;
                     children := descriptor_children;
                     child_descriptor := None; child := None;
                     _loaded_children := None; system := sys |}).
    pose proof (pick_choice_same (use_randrange self0) (no_repeats self0)
                  (Some (suspended self0)) rnd self0)
      as (Hh & Hs & Hr & Hn & Hc & Hsys).
    assert (forall c, stored_choice = Some c ->
              choice (pick_choice (use_randrange self0) (no_repeats self0)
                        (Some (suspended self0)) rnd self0).1 = Some c) as Hst.
    { intros c Hc'. by apply pick_choice_stored. }
    destruct (pick_choice _ _ _ _ self0) as [self r]. simpl in *.
    exists self. split_and!; try done.
    + rewrite Hr. unfold _str_to_bool. apply bool_decide_eq_true.
    + rewrite Hn. unfold _str_to_bool. apply bool_decide_eq_true.
Qed.


(** In a list without repetition, [index] and the look-up by position are
    inverse to each other. *)
Lemma list_index_lookup `{EqDecision A} (x : A) (l : list A) (i : nat) :
  NoDup l -> list_index x l = Some i <-> l !! i = Some x.
Proof.
  intros Hnd. split; [apply list_index_Some|]. intros Hi.
  destruct (list_index x l) as [j|] eqn:Hj.
  - f_equal. apply list_index_Some in Hj. by eapply NoDup_lookup.
  - apply list_index_None in Hj. destruct Hj. by eapply list_elem_of_lookup_2.
Qed.

Lemma get_choices_keys_NoDup self no_repeats suspended :
  NoDup (keys (get_choices self no_repeats suspended)).
Proof. rewrite get_choices_offered. apply of_pairs_NoDup. Qed.

Lemma get_choice_index_default self choice_arg :
  get_choice_index self choice_arg None
  = match (match choice_arg with
           | Some s => if bool_decide (s = "") then choice self else Some s
           | None => choice self
           end) ≫= (fun c => list_index c (keys (get_choices self false None)))
    with
    | Some i => Return i
    | None => Raise ValueError
    end.
Proof. done. Qed.

Lemma get_choice_index_same self :
  get_choice_index self None (Some (keys (get_choices self false None)))
  = get_choice_index self None None.
Proof. by rewrite get_choice_index_keys, get_choice_index_default. Qed.

(** X5. [get_choice_index] returns the position at which the key list of
    all choices holds the choice, and that position only; it raises
    [ValueError], and nothing else, when no choice is stored or the choice
    is not a key. A choice passed as argument is looked up instead of the
    stored one, unless it is the empty string. *)
Theorem get_choice_index_lookup (self : RandomizeModule) (i : nat) :
  let choices := keys (get_choices self false None) in
  (get_choice_index self None None = Return i
   <-> exists c, choice self = Some c /\ choices !! i = Some c)
  /\ (forall e, get_choice_index self None None = Raise e ->
        e = ValueError /\ forall c, choice self = Some c -> c ∉ choices)
  /\ (forall k, k <> "" ->
        get_choice_index self (Some k) None = Return i <-> choices !! i = Some k)
  /\ get_choice_index self (Some "") None = get_choice_index self None None.
Proof.
  intros choices.
  pose proof (get_choices_keys_NoDup self false None) as Hnd. fold choices in Hnd.
  rewrite !get_choice_index_default. fold choices. split_and!.
  - destruct (choice self) as [c|]; simpl.
    + destruct (list_index c choices) as [j|] eqn:Hj.
      * apply list_index_lookup in Hj; [|done]. split.
        -- intros [= <-]. by exists c.
        -- intros (? & [= <-] & Hi). f_equal. by eapply NoDup_lookup.
      * split; [done|]. intros (? & [= <-] & Hi).
        apply list_index_None in Hj. destruct Hj.
        by eapply list_elem_of_lookup_2.
    + split; [done|]. by intros (? & ? & _).
  - intros e. destruct (choice self) as [c|]; simpl.
    + destruct (list_index c choices) eqn:Hj; [done|]. intros [= <-].
      split; [done|]. intros ? [= <-]. by apply list_index_None.
    + by intros [= <-].
  - intros k Hk. rewrite get_choice_index_default. fold choices.
    rewrite bool_decide_eq_false_2 by done. simpl.
    destruct (list_index k choices) as [j|] eqn:Hj.
    + apply list_index_lookup in Hj; [|done]. split.
      * by intros [= <-].
      * intros Hi. f_equal. by eapply NoDup_lookup.
    + split; [done|]. intros Hi. apply list_index_None in Hj. destruct Hj.
      by eapply list_elem_of_lookup_2.
  - done.
Qed.

(** Python's index of a list, by the remainder of the index. *)
Lemma py_index_mod {A} (l : list A) (j : Z) :
  let n := Z.of_nat (length l) in
  py_index l j
  = if bool_decide (- n <= j < n)%Z
    then from_option Return (Raise IndexError) (l !! Z.to_nat (j mod n))
    else Raise IndexError.
Proof.
  intros n. unfold py_index. fold n.
  destruct (Z.leb_spec 0 j) as [Hj|Hj].
  - case_bool_decide as Hr.
    + rewrite Z.mod_small by lia. by destruct (l !! Z.to_nat j).
    + destruct (l !! Z.to_nat j) eqn:E; [|done].
      apply lookup_lt_Some in E. lia.
  - destruct (Z.leb_spec 0 (n + j)) as [Hn|Hn].
    + rewrite bool_decide_eq_true_2 by lia.
      replace (j mod n)%Z with (n + j)%Z; [by destruct (l !! Z.to_nat (n + j))|].
      symmetry. rewrite <-(Z.mod_small (n + j) n) by lia.
      rewrite <-(Z_mod_plus_full j 1 n). f_equal. lia.
    + by rewrite bool_decide_eq_false_2 by lia.
Qed.

Lemma get_choice_index_set_choice self c i :
  keys (get_choices self false None) !! i = Some c ->
  get_choice_index (set_choice (Some c) self) None None = Return i.
Proof.
  intros Hi. rewrite get_choice_index_default. simpl.
  rewrite (get_choices_all_same self _ (set_choice_same (Some c) self)).
  apply (list_index_lookup c) in Hi; [|apply get_choices_keys_NoDup].
  by rewrite Hi.
Qed.

(** X6. For a staff user whose choice is at position [i] of the [n]
    choices, ['next'] moves the choice to position [i + 1] when there is
    one and leaves it at the last position otherwise: it never wraps
    around and never raises. *)
Theorem handle_ajax_next_index (self : RandomizeModule)
    (data : gmap string string) (i : nat) :
  user_is_staff (system self) = true ->
  get_choice_index self None None = Return i ->
  let n := len (get_choices self false None) in
  let out := handle_ajax "next" data self in
  returns out.2 = true
  /\ get_choice_index out.1 None None
     = Return (if bool_decide (i + 1 < n) then i + 1 else i).
Proof.
  intros Hstaff Hi n out. subst out. unfold handle_ajax.
  rewrite Hstaff, get_choice_index_same, Hi. unfold handle_ajax_try. simpl.
  set (choices := keys (get_choices self false None)).
  assert (length choices = n) as Hlen
    by (subst choices; unfold keys; by rewrite length_fmap).
  rewrite py_index_nonneg by lia.
  replace (Z.to_nat (Z.of_nat i + 1)) with (i + 1) by lia.
  case_bool_decide as Hlt.
  - destruct (lookup_lt_is_Some_2 choices (i + 1)) as [c Hc]; [lia|].
    rewrite Hc. simpl. split; [done|]. by apply get_choice_index_set_choice.
  - rewrite (lookup_ge_None_2 choices (i + 1)) by lia. simpl. done.
Qed.

Lemma handle_ajax_next_index_witness :
  let self := (pick_choice false false (Some []) 0
                 (example_module true (Some 7%Z) None [] [] three_problems)).1 in
  let out := handle_ajax "next" ∅ self in
  returns out.2 = true
  /\ get_choice_index out.1 None None
     = Return (if bool_decide (1 + 1 < len (get_choices self false None))
               then 1 + 1 else 1).
Proof.
  apply (handle_ajax_next_index
           (pick_choice false false (Some []) 0
              (example_module true (Some 7%Z) None [] [] three_problems)).1
           ∅ 1); reflexivity.
Defined.

(** X7. For a staff user with a choice among the [n] choices, ['jump']
    with text that parses to [j] moves the choice to position [j mod n]
    when [-n <= j < n] (a negative index counts from the end) and leaves
    it where it is otherwise; text that is not a number leaves it too.
    A later look-up of the index gives that position back. *)
Theorem handle_ajax_jump_index (self : RandomizeModule)
    (data : gmap string string) (i : nat) (text : string) :
  user_is_staff (system self) = true ->
  get_choice_index self None None = Return i ->
  data !! "choice" = Some text ->
  let n := Z.of_nat (len (get_choices self false None)) in
  let out := handle_ajax "jump" data self in
  returns out.2 = true
  /\ get_choice_index out.1 None None
     = Return (match py_int text with
               | Some j =>
                   if bool_decide (- n <= j < n)%Z then Z.to_nat (j mod n)
                   else i
               | None => i
               end).
Proof.
  intros Hstaff Hi Hdata n out. subst out. unfold handle_ajax.
  rewrite Hstaff, get_choice_index_same, Hi. unfold handle_ajax_try. simpl.
  rewrite Hdata.
  set (choices := keys (get_choices self false None)).
  assert (Z.of_nat (length choices) = n) as Hlen
    by (subst choices n; unfold keys, len; by rewrite length_fmap).
  destruct (py_int text) as [j|]; simpl; [|done].
  rewrite py_index_mod, Hlen. case_bool_decide as Hr; simpl; [|done].
  destruct (lookup_lt_is_Some_2 choices (Z.to_nat (j mod n))) as [c Hc].
  { assert (0 <= j mod n < n)%Z by (apply Z.mod_pos_bound; lia). lia. }
  rewrite Hc. simpl. split; [done|]. by apply get_choice_index_set_choice.
Qed.

Lemma handle_ajax_jump_index_witness :
  let self := (pick_choice false false (Some []) 0
                 (example_module true (Some 7%Z) None [] [] three_problems)).1 in
  let out := handle_ajax "jump" {["choice" := " -1 "]} self in
  returns out.2 = true
  /\ get_choice_index out.1 None None = Return 2.
Proof.
  apply (handle_ajax_jump_index
           (pick_choice false false (Some []) 0
              (example_module true (Some 7%Z) None [] [] three_problems)).1
           {["choice" := " -1 "]} 1 " -1 "); reflexivity.
Defined.


Lemma get_choices_all_children self self' :
  children self' = children self ->
  get_choices self' false None = get_choices self false None.
Proof. intros H. by rewrite !get_choices_all, H. Qed.

Lemma get_choice_index_ext self self' :
  children self' = children self -> choice self' = choice self ->
  get_choice_index self' None
    (Some (keys (get_choices self' false None)))
  = get_choice_index self None (Some (keys (get_choices self false None))).
Proof.
  intros Hc Hch. rewrite !get_choice_index_keys.
  by rewrite (get_choices_all_children self self' Hc), Hch.
Qed.

(** The instance and the result of a view. *)
Lemma student_view_fst self :
  (student_view self).1
  = match child self with
    | None => self
    | Some ch =>
        if py_in (url (module_location ch)) (history self) then self
        else set_history (history self ++ [url (module_location ch)]) self
    end.
Proof.
  unfold student_view. destruct (child self) as [ch|]; [|done].
  destruct (py_in _ (history self)); simpl;
    (destruct (user_is_staff (system self)); [|done]);
    by destruct (get_choice_index _ _ _).
Qed.

Lemma student_view_snd self :
  (student_view self).2
  = match child self with
    | None => Return {| content := "<div>Nothing to randomize between</div>" |}
    | Some ch =>
        if user_is_staff (system self) then
          match get_choice_index self None
                  (Some (keys (get_choices self false None))) with
          | Raise e => Raise e
          | Return index =>
              Return {| content :=
                "<html>" +:+
                render_template (system self) index
                  (length (keys (get_choices self false None))) +:+
                render ch +:+ "</html>" |}
          end
        else Return {| content := render ch |}
    end.
Proof.
  unfold student_view. destruct (child self) as [ch|]; [|done].
  destruct (py_in _ (history self)); simpl.
  - destruct (user_is_staff (system self)); [|done].
    by destruct (get_choice_index _ _ _).
  - destruct (user_is_staff (system self)); [|done].
    rewrite (get_choice_index_ext self (set_history _ self)) by done.
    rewrite (get_choices_all_children self (set_history _ self)) by done.
    by destruct (get_choice_index _ _ _).
Qed.

(** X8. [student_view] changes nothing but the history, to which it adds
    at most one url, one that was not there; and a second view right
    after the first changes nothing more and gives the same result. *)
Theorem student_view_twice (self : RandomizeModule) :
  let out := student_view self in
  student_view out.1 = out
  /\ out.1 = set_history (history out.1) self
  /\ (history out.1 = history self
      \/ exists u, (u ∉ history self) /\ history out.1 = history self ++ [u]).
Proof.
  intros out.
  assert (child out.1 = child self /\ children out.1 = children self
          /\ choice out.1 = choice self /\ system out.1 = system self
          /\ (student_view out.1).1 = out.1
          /\ out.1 = set_history (history out.1) self
          /\ (history out.1 = history self
              \/ exists u, (u ∉ history self)
                           /\ history out.1 = history self ++ [u]))
    as (Hch & Hc & Hcho & Hsys & Hfst & Hframe & Hhist).
  { subst out. rewrite (student_view_fst (student_view self).1).
    rewrite student_view_fst.
    destruct (child self) as [ch|] eqn:Hch.
    2:{ rewrite Hch. split_and!; try done; [by destruct self|by left]. }
    destruct (py_in _ (history self)) eqn:Hin.
    - rewrite Hch, Hin. split_and!; try done; [by destruct self|by left].
    - simpl. rewrite Hch.
      assert (py_in (url (module_location ch))
                (history self ++ [url (module_location ch)]) = true) as ->.
      { apply py_in_true, elem_of_app. right. by apply list_elem_of_singleton. }
      split_and!; try done. right. exists (url (module_location ch)).
      split; [by apply py_in_false|done]. }
  split_and!; try done.
  rewrite (surjective_pairing (student_view out.1)), Hfst.
  rewrite (surjective_pairing out) at 3. f_equal.
  subst out. rewrite (student_view_snd (student_view self).1), student_view_snd.
  rewrite Hch, Hsys, (get_choice_index_ext self _ Hc Hcho).
  by rewrite (get_choices_all_children self _ Hc).
Qed.

(** X9. When [__init__] has returned, [student_view] returns too, for
    staff and for students: a student gets the fragment of the child, or
    the fragment that says there is nothing when no child was chosen. *)
Theorem student_view_after_init (stored_choice : option string)
    (stored_history stored_suspended : list string)
    (xml_attributes : gmap string string)
    (descriptor_children : list Descriptor) (sys : System) (rnd : nat)
    (self : RandomizeModule) :
  __init__ stored_choice stored_history stored_suspended xml_attributes
           descriptor_children sys rnd = (Some self, Return tt) ->
  returns (student_view self).2 = true
  /\ (child self = None ->
      (student_view self).2
      = Return {| content := "<div>Nothing to randomize between</div>" |})
  /\ (forall m, child self = Some m -> user_is_staff sys = false ->
      (student_view self).2 = Return {| content := render m |}).
Proof.
  unfold __init__. case_bool_decide as Hxml; [done|].
  set (self0 := {| choice := stored_choice; history := stored_history;
                   suspended := stored_suspended;
                   use_randrange := _; no_repeats := _;
                   children := descriptor_children;
                   child_descriptor := None; child := None;
                   _loaded_children := None; system := sys |}).
  pose proof (pick_choice_fresh (use_randrange self0) (no_repeats self0)
                (Some (suspended self0)) rnd self0 eq_refl) as Hout.
  pose proof (pick_choice_same (use_randrange self0) (no_repeats self0)
                (Some (suspended self0)) rnd self0) as Hsame.
  simpl in Hout.
  destruct (pick_choice _ _ _ _ self0) as [self' r]. simpl in *.
  intros [= -> ->].
  assert (system self = sys) as Hsys by (by destruct Hsame as (_&_&_&_&_&->)).
  rewrite student_view_snd, Hsys.
  destruct (choice self) as [c|] eqn:Hc.
  - destruct Hout as [Hd Hout]. unfold module_of in Hout.
    destruct (get (get_choices self0 false None) c) as [d|] eqn:Hget;
      simpl in Hout; [|by destruct Hout].
    destruct (get_module sys d) as [m|]; [|by destruct Hout].
    destruct Hout as [_ ->].
    assert (c ∈ keys (get_choices self false None)) as Hin.
    { rewrite (get_choices_all_same self0 self Hsame).
      apply get_is_Some. by eexists. }
    assert (returns (get_choice_index self None
              (Some (keys (get_choices self false None)))) = true) as Hret.
    { apply get_choice_index_returns. by exists c. }
    split_and!.
    + destruct (user_is_staff sys); [|done].
      by destruct (get_choice_index _ _ _).
    + done.
    + by intros ? [= <-] ->.
  - destruct Hout as (_ & _ & ->). split_and!; done.
Qed.

Lemma student_view_after_init_witness :
  let self := default (example_module false None None [] [] [])
                (__init__ None [] ["problem1"] {["no_repeats" := "true"]}
                   three_problems (example_system true (Some 3%Z)) 0).1 in
  returns (student_view self).2 = true.
Proof.
  refine (proj1 (student_view_after_init None [] ["problem1"]
                   {["no_repeats" := "true"]} three_problems
                   (example_system true (Some 3%Z)) 0 _ _)).
  vm_compute. reflexivity.
Defined.

End RandomizeExtra.

(** ** More on the dump to neo4j *)
Module Neo4jExtra.
Import Neo4j Neo4jSpec.

Lemma unicode_atoms_accepted (texts : list string) :
  forallb is_unicode (AUnicode <$> texts) = true.
Proof. induction texts as [|t texts IH]; [done|]. simpl. exact IH. Qed.

Lemma coerce_types_neo4j v r :
  coerce_types v = Return r -> neo4j_accepts r = true.
Proof.
  unfold coerce_types. destruct v as [a|l|l|l|l]; simpl;
    try (destruct (unicode_elements l []); [|done]; intros [= <-];
         apply unicode_atoms_accepted).
  destruct (is_primitive a) eqn:Hp; simpl.
  - by intros [= <-].
  - destruct (unicode a); [|done]. by intros [= <-].
Qed.

Lemma unicode_atoms_inv (l : list atom) :
  forallb is_unicode l = true -> exists texts, l = AUnicode <$> texts.
Proof.
  induction l as [|a l IH]; simpl; [by exists []|].
  destruct a; try done. intros [texts ->]%IH. by eexists (_ :: texts).
Qed.

(** X10. What [coerce_types] returns is a value that neo4j takes: a
    primitive value or a collection of unicode texts; and it returns a
    primitive value, a tuple of unicode texts and a list of unicode texts
    as they are. *)
Theorem coerce_types_accepted (v r : value) :
  coerce_types v = Return r ->
  neo4j_accepts r = true
  /\ (neo4j_accepts v = true ->
      (forall l, v <> VSet l /\ v <> VFrozenset l) -> r = v).
Proof.
  intros Hv. split; [by eapply coerce_types_neo4j|]. intros Hacc Hset.
  revert Hv. unfold coerce_types. destruct v as [a|l|l|l|l]; simpl in *.
  - rewrite Hacc. simpl. by intros [= <-].
  - apply unicode_atoms_inv in Hacc as [texts ->].
    rewrite unicode_elements_AUnicode. by intros [= <-].
  - apply unicode_atoms_inv in Hacc as [texts ->].
    rewrite unicode_elements_AUnicode. by intros [= <-].
  - by destruct (Hset l) as [? _].
  - by destruct (Hset l) as [_ ?].
Qed.

Lemma coerce_types_accepted_witness :
  neo4j_accepts (VFrozenset (AUnicode <$> remove_dups ["2"; "None"])) = true.
Proof.
  apply (coerce_types_accepted (VFrozenset [AInt 2; ANone])). reflexivity.
Defined.

(** [serialize_item] returns exactly when the conversion of [edited_on]
    does. *)
Lemma serialize_item_Return item fields lbl :
  serialize_item item = Return (fields, lbl) ->
  exists edited,
    unicode (default (AUnicode "") (edited_on item)) = Return edited
    /\ lbl = block_type item
    /\ fields
       = (if bool_decide (block_type item = "course")
          then delete "checklists" else id)
           (<["course_key" := Atom (AUnicode (course_key_text (course_key item)))]>
            (<["run" := Atom (AUnicode (run (course_key item)))]>
             (<["course" := Atom (AUnicode (course (course_key item)))]>
              (<["org" := Atom (AUnicode (org (course_key item)))]>
               (<["display_name" :=
                    Atom (AUnicode (display_name_with_default item))]>
                (<["edited_on" := Atom (AUnicode edited)]>
                 (delete "children"
                    (delete "parent" (Neo4j.fields item))))))))).
Proof.
  unfold serialize_item. destruct (unicode _) as [edited|]; [|done].
  intros [= <- <-]. exists edited. split_and!; try done.
  by case_bool_decide.
Qed.

(** X11. The fields that [serialize_item] returns never hold [parent] or
    [children], nor [checklists] for a course; they hold the display name,
    the three parts of the course key and its text, and the text of
    [edited_on], whatever the item has under these names; every other
    field is as the item has it. *)
Theorem serialize_item_fields (item : Item) (fields : gmap string value)
    (lbl : string) :
  serialize_item item = Return (fields, lbl) ->
  lbl = block_type item
  /\ fields !! "parent" = None
  /\ fields !! "children" = None
  /\ (lbl = "course" -> fields !! "checklists" = None)
  /\ fields !! "display_name"
     = Some (Atom (AUnicode (display_name_with_default item)))
  /\ fields !! "org" = Some (Atom (AUnicode (org (course_key item))))
  /\ fields !! "course" = Some (Atom (AUnicode (course (course_key item))))
  /\ fields !! "run" = Some (Atom (AUnicode (run (course_key item))))
  /\ fields !! "course_key"
     = Some (Atom (AUnicode (course_key_text (course_key item))))
  /\ (exists edited,
        unicode (default (AUnicode "") (edited_on item)) = Return edited
        /\ fields !! "edited_on" = Some (Atom (AUnicode edited)))
  /\ (forall k, k ∉ default_fields -> k <> "parent" -> k <> "children" ->
        (lbl = "course" -> k <> "checklists") ->
        fields !! k = Neo4j.fields item !! k).
Proof.
  intros (edited & Hed & -> & ->)%serialize_item_Return.
  split; [done|].
  case_bool_decide as Hcourse; simpl.
  - split_and!; try (by simplify_map_eq).
    + exists edited. split; [done|]. by simplify_map_eq.
    + intros k Hk Hp Hc Hl. unfold default_fields in Hk.
      repeat (apply not_elem_of_cons in Hk as [? Hk]).
      specialize (Hl Hcourse). by simplify_map_eq.
  - split_and!; try (by simplify_map_eq).
    + exists edited. split; [done|]. by simplify_map_eq.
    + intros k Hk Hp Hc Hl. unfold default_fields in Hk.
      repeat (apply not_elem_of_cons in Hk as [? Hk]).
      by simplify_map_eq.
Qed.

Lemma serialize_item_fields_witness :
  exists fields,
    serialize_item (example_item "course" "course"
                      {[ "org" := Atom (AInt 1); "checklists" := VList [];
                         "children" := VList []; "weight" := Atom (AInt 2) ]}
                      ["chapter"])
    = Return (fields, "course")
    /\ fields !! "org" = Some (Atom (AUnicode "edX"))
    /\ fields !! "checklists" = None
    /\ fields !! "children" = None
    /\ fields !! "weight" = Some (Atom (AInt 2)).
Proof.
  destruct (serialize_item (example_item "course" "course"
                      {[ "org" := Atom (AInt 1); "checklists" := VList [];
                         "children" := VList []; "weight" := Atom (AInt 2) ]}
                      ["chapter"])) as [[fields lbl]|] eqn:Hs;
    [|by vm_compute in Hs].
  pose proof (serialize_item_fields _ _ _ Hs)
    as (-> & _ & Hc & Hl & _ & Ho & _ & _ & _ & _ & Hk).
  exists fields. split_and!; try done.
  - by apply Hl.
  - rewrite Hk; [by vm_compute|..]; try done.
    unfold default_fields. intros H.
    repeat (apply elem_of_cons in H as [H|H]; [discriminate H|]).
    by apply elem_of_nil in H.
Defined.


(** What [serialize_course] has returned. *)
Lemma serialize_course_Return modulestore course_id nodes relationships :
  serialize_course modulestore course_id = Return (nodes, relationships) ->
  let items := get_items modulestore course_id in
  Forall2 node_of_item items nodes
  /\ relationships
     = items ≫= (fun item =>
         get_children item ≫= parent_of (node_for items nodes) item).
Proof.
  intros H items. unfold serialize_course in H. fold items in H.
  destruct (create_nodes items [] ∅) as [[nodes' l2n]|] eqn:Hcreate; [|done].
  injection H as -> <-.
  apply create_nodes_Return in Hcreate as (new & Hnodes & Hnew & _ & Hmap).
  simpl in Hnodes. subst new. split; [done|].
  rewrite create_relationships_app. simpl.
  apply list_bind_ext; [|done]. intros item.
  apply list_bind_ext; [|done]. intros loc.
  unfold parent_of. rewrite !Hmap, !lookup_empty.
  by destruct (node_for items nodes (location item)),
       (node_for items nodes loc).
Qed.

Lemma coerced_Some v v' : coerced v = Some v' <-> coerce_types v = Return v'.
Proof.
  unfold coerced. destruct (coerce_types v); naive_solver.
Qed.

(** X12. Every node that [serialize_course] returns has only properties
    that neo4j takes, none named [parent] or [children], and the course
    key of its item under [org], [course], [run] and [course_key]. *)
Theorem serialize_course_properties (modulestore : ModuleStore)
    (course_id : string) (nodes : list Node)
    (relationships : list Relationship) :
  serialize_course modulestore course_id = Return (nodes, relationships) ->
  Forall2 (fun item node =>
      map_Forall (fun _ v => neo4j_accepts v = true) (properties node)
      /\ properties node !! "parent" = None
      /\ properties node !! "children" = None
      /\ properties node !! "org"
         = Some (Atom (AUnicode (org (course_key item))))
      /\ properties node !! "course"
         = Some (Atom (AUnicode (course (course_key item))))
      /\ properties node !! "run"
         = Some (Atom (AUnicode (run (course_key item))))
      /\ properties node !! "course_key"
         = Some (Atom (AUnicode (course_key_text (course_key item)))))
    (get_items modulestore course_id) nodes.
Proof.
  intros [Hnodes _]%serialize_course_Return.
  eapply Forall2_impl; [exact Hnodes|]. clear. intros item node.
  intros (_ & fields & Hs & Hprops).
  apply serialize_item_Return in Hs as (edited & _ & _ & ->).
  split_and!.
  - intros k v Hk. rewrite Hprops in Hk.
    apply bind_Some in Hk as (v0 & _ & Hv%coerced_Some).
    by eapply coerce_types_neo4j.
  - rewrite Hprops. by case_bool_decide; simplify_map_eq.
  - rewrite Hprops. by case_bool_decide; simplify_map_eq.
  - rewrite Hprops. by case_bool_decide; simplify_map_eq.
  - rewrite Hprops. by case_bool_decide; simplify_map_eq.
  - rewrite Hprops. by case_bool_decide; simplify_map_eq.
  - rewrite Hprops. by case_bool_decide; simplify_map_eq.
Qed.


Lemma serialize_course_properties_witness :
  match serialize_course plain_store "demo" with
  | Return (nodes, _) =>
      Forall (fun node =>
          map_Forall (fun _ v => neo4j_accepts v = true) (properties node))
        nodes
  | Raise _ => True
  end.
Proof.
  destruct (serialize_course plain_store "demo") as [[nodes rels]|] eqn:Hs;
    [|done].
  pose proof (serialize_course_properties plain_store "demo" nodes rels Hs) as H.
  eapply Forall2_Forall_r; [exact H|].
  apply Forall_forall. by intros item _ node (? & _).
Defined.

Lemma coerce_fields_Raise fields e :
  coerce_fields fields = Raise e ->
  ~ map_Forall (fun _ v => returns (coerce_types v) = true) fields.
Proof.
  intros H Hall. pose proof (coerce_fields_fold fields fields) as Hf.
  unfold coerce_fields in H. rewrite H in Hf.
  destruct Hf as (k & v & Hk & Hv). apply Hall in Hk. simpl in Hk. congruence.
Qed.

Lemma create_nodes_serializable items : forall nodes0 l2n0,
  returns (create_nodes items nodes0 l2n0) = true ->
  Forall (fun item => serializable item = true) items.
Proof.
  induction items as [|item items IH]; intros nodes0 l2n0; simpl; [done|].
  destruct (serialize_item item) as [[fields lbl]|] eqn:Hs; [|done].
  pose proof (coerce_fields_fold fields fields) as Hf. unfold coerce_fields.
  destruct (map_fold _ _ _) as [props|e]; [|done].
  destruct Hf as [_ Hall]. intros H%IH. constructor; [|done].
  unfold serializable. rewrite Hs. by apply bool_decide_eq_true.
Qed.

(** X13. [serialize_course] returns exactly when every item of the course
    can be serialized; when it raises, some item of the course cannot. *)
Theorem serialize_course_returns (modulestore : ModuleStore)
    (course_id : string) :
  returns (serialize_course modulestore course_id) = true
  <-> Forall (fun item => serializable item = true)
             (get_items modulestore course_id).
Proof.
  unfold serialize_course. split.
  - intros H. apply (create_nodes_serializable _ [] ∅).
    by destruct (create_nodes _ _ _) as [[? ?]|].
  - intros Hall.
    destruct (create_nodes_returns _ [] ∅ Hall) as [[nodes l2n] ->]. done.
Qed.

(** With distinct locations, the node of a location is the node at the
    position of its item. *)
Lemma node_for_NoDup items : forall nodes i item n,
  NoDup (location <$> items) -> length nodes = length items ->
  items !! i = Some item -> nodes !! i = Some n ->
  node_for items nodes (location item) = Some n.
Proof.
  induction items as [|item0 items IH]; intros [|n0 nodes] i item n Hnd Hlen;
    try done.
  rewrite fmap_cons in Hnd. apply NoDup_cons in Hnd as [Hfresh Hnd].
  simpl in Hlen. destruct i as [|i]; simpl.
  - intros [= <-] [= <-].
    destruct (node_for items nodes (location item0)) as [n'|] eqn:Hn.
    + apply node_for_Some in Hn as (j & item' & Hj & _ & Hloc).
      destruct Hfresh. rewrite <-Hloc. apply list_elem_of_fmap.
      exists item'. split; [done|]. by eapply list_elem_of_lookup_2.
    + by rewrite decide_True.
  - intros Hi Hn. by rewrite (IH nodes i item n) by (done || lia).
Qed.

(** X14. When the items of a course have distinct locations, the
    relationships that [serialize_course] returns are the [PARENT_OF]
    relationships from the node of an item to the node of an item whose
    location is among its children, nodes and items taken at the same
    positions. *)
Theorem serialize_course_edges (modulestore : ModuleStore)
    (course_id : string) (nodes : list Node)
    (relationships : list Relationship) :
  let items := get_items modulestore course_id in
  NoDup (location <$> items) ->
  serialize_course modulestore course_id = Return (nodes, relationships) ->
  forall r, r ∈ relationships
    <-> exists i j parent child,
          items !! i = Some parent /\ items !! j = Some child
          /\ location child ∈ get_children parent
          /\ nodes !! i = Some (start_node r) /\ nodes !! j = Some (end_node r)
          /\ rel_type r = "PARENT_OF".
Proof.
  intros items Hnd [Hnodes ->]%serialize_course_Return r. fold items in Hnodes |- *.
  assert (length nodes = length items) as Hlen
    by (symmetry; by eapply Forall2_length).
  assert (forall i item, items !! i = Some item ->
            node_for items nodes (location item) = nodes !! i) as Hfor.
  { intros i item Hi.
    destruct (lookup_lt_is_Some_2 nodes i) as [n Hn].
    { apply lookup_lt_Some in Hi. lia. }
    rewrite Hn. by eapply node_for_NoDup. }
  rewrite list_elem_of_bind. split.
  - intros (parent & (loc & Hr & Hloc)%list_elem_of_bind & Hp).
    unfold parent_of in Hr.
    destruct (node_for items nodes (location parent)) as [p|] eqn:Hpn;
      [|by apply elem_of_nil in Hr].
    destruct (node_for items nodes loc) as [c|] eqn:Hcn;
      [|by apply elem_of_nil in Hr].
    apply list_elem_of_singleton in Hr as ->. simpl.
    apply list_elem_of_lookup in Hp as [i Hi].
    apply node_for_Some in Hcn as (j & child & Hj & Hcj & <-).
    rewrite (Hfor i parent Hi) in Hpn.
    by exists i, j, parent, child.
  - intros (i & j & parent & child & Hi & Hj & Hloc & Hs & He & Ht).
    exists parent. split; [|by eapply list_elem_of_lookup_2].
    apply list_elem_of_bind. exists (location child). split; [|done].
    unfold parent_of.
    rewrite (Hfor i parent Hi), (Hfor j child Hj), Hs, He.
    apply list_elem_of_singleton. destruct r; simpl in *. by subst.
Qed.

Lemma serialize_course_edges_witness :
  match serialize_course plain_store "demo" with
  | Return (nodes, relationships) =>
      forall r, r ∈ relationships
        <-> exists i j parent child,
              example_course !! i = Some parent
              /\ example_course !! j = Some child
              /\ location child ∈ get_children parent
              /\ nodes !! i = Some (start_node r)
              /\ nodes !! j = Some (end_node r)
              /\ rel_type r = "PARENT_OF"
  | Raise _ => True
  end.
Proof.
  destruct (serialize_course plain_store "demo") as [[nodes rels]|] eqn:Hs;
    [|done].
  apply (serialize_course_edges plain_store "demo" nodes rels); [|done].
  apply (bool_decide_unpack _). vm_compute. exact I.
Defined.


(** *** Whole runs of the command *)

Lemma add_to_transaction_sound drv es : forall r,
  (forall tx e, create_raises drv tx e = false) ->
  add_to_transaction drv es r
  = ({| graph := graph r; transaction := transaction r ++ es;
        trace := trace r ++ (Create <$> es) |}, Return tt).
Proof.
  induction es as [|e es IH]; intros r Hc; simpl.
  - rewrite !app_nil_r. by destruct r.
  - unfold create. rewrite Hc. rewrite IH by done. simpl.
    by rewrite <-!app_assoc.
Qed.

Lemma handle_course_sound drv modulestore course_id r :
  (forall tx e, create_raises drv tx e = false) ->
  (forall g tx, commit_raises drv g tx = false) ->
  returns (serialize_course modulestore course_id) = true ->
  (handle_course drv modulestore course_id r).2 = Return tt
  /\ graph (handle_course drv modulestore course_id r).1
     = graph r ++ course_entities modulestore course_id
  /\ transaction (handle_course drv modulestore course_id r).1 = [].
Proof.
  intros Hc Hm Hs. unfold handle_course, course_entities.
  destruct (serialize_course modulestore course_id) as [[nodes rels]|];
    [|done].
  unfold handle_try. rewrite !add_to_transaction_sound by done.
  unfold commit. rewrite Hm. simpl. done.
Qed.

Lemma handle_loop_sound drv modulestore all_courses : forall r,
  (forall tx e, create_raises drv tx e = false) ->
  (forall g tx, commit_raises drv g tx = false) ->
  Forall (fun c => returns (serialize_course modulestore c) = true)
         all_courses ->
  (handle_loop drv modulestore all_courses r).2 = Return tt
  /\ graph (handle_loop drv modulestore all_courses r).1
     = graph r ++ (all_courses ≫= course_entities modulestore).
Proof.
  induction all_courses as [|c rest IH]; intros r Hc Hm Hall; simpl.
  - by rewrite app_nil_r.
  - apply Forall_cons in Hall as [Hs Hall].
    destruct (handle_course_sound drv modulestore c r Hc Hm Hs)
      as (Hret & Hg & _).
    destruct (handle_course drv modulestore c r) as [r' res]. simpl in *.
    subst res. destruct (IH r' Hc Hm Hall) as [-> ->].
    by rewrite Hg, <-app_assoc.
Qed.

(** X15. With a driver that refuses nothing and courses that can all be
    serialized, [handle] returns and leaves in the database the entities
    of all courses, course after course, nodes before relationships, and
    nothing of what the database held before. *)
Theorem handle_sound (drv : Driver) (modulestore : ModuleStore)
    (existing : list Entity) :
  (forall tx e, create_raises drv tx e = false) ->
  (forall g tx, commit_raises drv g tx = false) ->
  Forall (fun c => returns (serialize_course modulestore c) = true)
         (get_course_summaries modulestore) ->
  (handle drv modulestore existing).2 = Return tt
  /\ graph (handle drv modulestore existing).1
     = get_course_summaries modulestore ≫= course_entities modulestore.
Proof.
  intros Hc Hm Hall. unfold handle.
  by destruct (handle_loop_sound drv modulestore
                 (get_course_summaries modulestore)
                 (delete_all {| graph := existing; transaction := [];
                                trace := [] |}) Hc Hm Hall) as [-> ->].
Qed.

Lemma handle_sound_witness :
  (handle sound_driver plain_store [ENode {| node_id := 0; label := "old";
                                             properties := ∅ |}]).2
  = Return tt
  /\ graph (handle sound_driver plain_store
              [ENode {| node_id := 0; label := "old"; properties := ∅ |}]).1
     = ["demo"; "demo2"] ≫= course_entities plain_store.
Proof.
  apply (handle_sound sound_driver plain_store); try done.
  repeat (apply Forall_cons_2; [vm_compute; reflexivity|]).
  apply Forall_nil_2.
Defined.

(** The entities of the courses that [flags] marks. *)
Lemma marked_none modulestore (cs : list string) :
  concat (zip_with (fun c (b : bool) =>
            if b then course_entities modulestore c else [])
            cs (replicate (length cs) false)) = [].
Proof. induction cs as [|c cs IH]; [done|]. simpl. exact IH. Qed.

Lemma handle_loop_whole_courses drv modulestore all_courses : forall r,
  exists flags : list bool,
    length flags = length all_courses
    /\ graph (handle_loop drv modulestore all_courses r).1
       = graph r
         ++ concat (zip_with (fun c (b : bool) =>
                      if b then course_entities modulestore c else [])
                      all_courses flags).
Proof.
  induction all_courses as [|c rest IH]; intros r.
  - exists []. simpl. by rewrite app_nil_r.
  - simpl.
    destruct (serialize_course modulestore c) as [[nodes rels]|e] eqn:Hs.
    + destruct (handle_course_outcome drv modulestore c r nodes rels Hs)
        as [Hret Hcases].
      destruct (handle_course drv modulestore c r) as [r' res]. simpl in *.
      subst res. destruct (IH r') as (flags & Hlen & ->).
      destruct Hcases as [[_ ->]|[-> _]].
      * exists (true :: flags). simpl. split; [by rewrite Hlen|].
        unfold course_entities. rewrite Hs. by rewrite <-app_assoc.
      * exists (false :: flags). simpl. split; [by rewrite Hlen|done].
    + unfold handle_course. rewrite Hs.
      exists (false :: replicate (length rest) false).
      split; [simpl; by rewrite length_replicate|].
      simpl. by rewrite marked_none, app_nil_r.
Qed.

(** X16. Whatever the driver refuses and wherever the command stops, the
    database holds after [handle] whole courses only: the entities of
    some of the courses, all of them for each such course, in the order
    of the courses, and nothing else. *)
Theorem handle_whole_courses (drv : Driver) (modulestore : ModuleStore)
    (existing : list Entity) :
  exists flags : list bool,
    length flags = length (get_course_summaries modulestore)
    /\ graph (handle drv modulestore existing).1
       = concat (zip_with (fun c (b : bool) =>
                   if b then course_entities modulestore c else [])
                   (get_course_summaries modulestore) flags).
Proof.
  unfold handle.
  destruct (handle_loop_whole_courses drv modulestore
              (get_course_summaries modulestore)
              (delete_all {| graph := existing; transaction := [];
                             trace := [] |})) as (flags & Hlen & ->).
  by exists flags.
Qed.

Lemma handle_loop_app drv modulestore l1 l2 : forall r,
  handle_loop drv modulestore (l1 ++ l2) r
  = match handle_loop drv modulestore l1 r with
    | (r', Return _) => handle_loop drv modulestore l2 r'
    | (r', Raise e) => (r', Raise e)
    end.
Proof.
  induction l1 as [|c l1 IH]; intros r; simpl; [done|].
  destruct (handle_course drv modulestore c r) as [r' [[]|e]]; [|done].
  apply IH.
Qed.

(** X17. [handle] stops at the first course that cannot be serialized: it
    raises the exception of that serialization, that course is the last
    one it has tried to serialize, and the serialization is the last thing
    it has done, so that no later course reaches the database. *)
Theorem handle_stops (drv : Driver) (modulestore : ModuleStore)
    (existing : list Entity) (before after : list string) (c : string)
    (e : exn) :
  get_course_summaries modulestore = before ++ c :: after ->
  Forall (fun c => returns (serialize_course modulestore c) = true) before ->
  serialize_course modulestore c = Raise e ->
  let out := handle drv modulestore existing in
  out.2 = Raise e
  /\ serialized_courses (trace out.1) = before ++ [c]
  /\ last (trace out.1) = Some (SerializeCourse c).
Proof.
  intros Hcs Hbefore Hc out. subst out. unfold handle. rewrite Hcs.
  rewrite handle_loop_app.
  set (r0 := delete_all _).
  destruct (handle_loop_all_courses drv modulestore before r0 Hbefore)
    as [Hret Hser].
  destruct (handle_loop drv modulestore before r0) as [r1 res]. simpl in *.
  subst res. unfold handle_course. rewrite Hc. simpl.
  split_and!; [done| |].
  - unfold serialized_courses in *. rewrite !bind_app, Hser. simpl.
    by rewrite !app_nil_r.
  - by rewrite last_snoc.
Qed.

Lemma handle_stops_witness :
  (handle sound_driver example_store []).2 = Raise UnicodeDecodeError
  /\ serialized_courses (trace (handle sound_driver example_store []).1)
     = ["demo"] ++ ["latin"]
  /\ last (trace (handle sound_driver example_store []).1)
     = Some (SerializeCourse "latin").
Proof.
  apply (handle_stops sound_driver example_store [] ["demo"] ["demo2"] "latin"
           UnicodeDecodeError).
  - reflexivity.
  - apply Forall_cons_2; [vm_compute; reflexivity|apply Forall_nil_2].
  - vm_compute. reflexivity.
Defined.


(** X18. [add_to_transaction] never touches the database. It creates the
    entities in order and puts them into the transaction until the driver
    refuses one: when it returns, all of them are pending; when it raises,
    the refused entity is the last one it has tried, the entities before
    it are pending, the driver has refused none of those, and the entities
    after it have not been tried. *)
Theorem add_to_transaction_stops (drv : Driver) (neo4j_entities : list Entity)
    (r : Run) :
  let out := add_to_transaction drv neo4j_entities r in
  graph out.1 = graph r
  /\ match out.2 with
     | Return _ =>
         transaction out.1 = transaction r ++ neo4j_entities
         /\ trace out.1 = trace r ++ (Create <$> neo4j_entities)
         /\ forall k e, neo4j_entities !! k = Some e ->
              create_raises drv (transaction r ++ take k neo4j_entities) e
              = false
     | Raise _ =>
         exists k e,
           neo4j_entities !! k = Some e
           /\ create_raises drv (transaction r ++ take k neo4j_entities) e
              = true
           /\ (forall i e', i < k -> neo4j_entities !! i = Some e' ->
                 create_raises drv (transaction r ++ take i neo4j_entities) e'
                 = false)
           /\ transaction out.1 = transaction r ++ take k neo4j_entities
           /\ trace out.1 = trace r ++ (Create <$> take (S k) neo4j_entities)
     end.
Proof.
  revert r. induction neo4j_entities as [|e es IH]; intros r; simpl.
  - split; [done|]. rewrite !app_nil_r. split_and!; try done.
  - unfold create. simpl.
    destruct (create_raises drv (transaction r) e) eqn:Hraise; simpl.
    + split; [done|]. exists 0, e. simpl. rewrite !app_nil_r.
      split_and!; try done. intros i e' Hi. lia.
    + match goal with |- context [add_to_transaction drv es ?r0] =>
        specialize (IH r0); destruct (add_to_transaction drv es r0)
          as [r' res] end.
      simpl in *. destruct IH as [-> IH]. split; [done|].
      destruct res as [[]|ex].
      * destruct IH as (-> & -> & Hok). rewrite <-!app_assoc.
        split_and!; try done.
        intros [|k] e'; simpl.
        -- intros [= <-]. by rewrite app_nil_r.
        -- intros Hk. specialize (Hok k e' Hk).
           by rewrite <-app_assoc in Hok.
      * destruct IH as (k & e' & Hk & Href & Hbefore & -> & ->).
        exists (S k), e'. simpl. rewrite <-!app_assoc in *.
        split_and!; try done.
        intros [|i] e'' Hi; simpl.
        -- intros [= <-]. by rewrite app_nil_r.
        -- intros Hi'. assert (i < k) as Hlt by lia.
           specialize (Hbefore i e'' Hlt Hi').
           by rewrite <-app_assoc in Hbefore.
Qed.

(** A driver that refuses relationships takes the nodes and stops at the
    first relationship. *)
Example add_to_transaction_example :
  let r := {| graph := []; transaction := []; trace := [] |} in
  let n := fun i => ENode {| node_id := i; label := "n"; properties := ∅ |} in
  let e := ERelationship {| start_node := {| node_id := 0; label := "n";
                                             properties := ∅ |};
                            rel_type := "PARENT_OF";
                            end_node := {| node_id := 1; label := "n";
                                           properties := ∅ |} |} in
  let out := add_to_transaction no_relationships [n 0; n 1; e; n 2] r in
  out.2 = Raise (Exception "create")
  /\ transaction out.1 = [n 0; n 1]
  /\ trace out.1 = [Create (n 0); Create (n 1); Create e]
  /\ graph out.1 = [].
Proof. repeat split; reflexivity. Qed.

End Neo4jExtra.
